(** * blog/models.py: the data-model layer of the blog

    A shallow embedding of [blog/models.py]: the three models ([Post],
    [Tag], [Comment]), the two query-set classes ([TagQuerySet],
    [PostQuerySet]) and the relational operations their methods are
    compiled to by the ORM (joins, GROUP BY with COUNT, ORDER BY, cascading
    DELETE), over a database given as a record of tables. *)

From stdpp Require Import base option list gmap strings sorting.
From Stdlib Require Import ZArith Ascii Lia.

Local Open Scope Z_scope.

(** ** Python values used by the module *)

Module Python.

(** A [str] is held as the bytes of its UTF-8 encoding, so that it is an
    ASCII string when every byte is below 128. *)
Definition isascii (s : string) : bool :=
  forallb (λ c, (nat_of_ascii c <? 128)%nat) (String.list_ascii_of_string s).

(** Lowering an ASCII string, byte by byte: [A]..[Z] go to [a]..[z],
    every other character is kept. *)
Definition lower_char (c : ascii) : ascii :=
  let n := nat_of_ascii c in
  if ((65 <=? n) && (n <=? 90))%nat then ascii_of_nat (n + 32) else c.

Fixpoint ascii_lower (s : string) : string :=
  match s with
  | EmptyString => EmptyString
  | String c s' => String (lower_char c) (ascii_lower s')
  end.

(** [str.lower].  The interpreter lowers an ASCII string byte by byte and
    sends every other string through the case mappings of the Unicode
    character database, which can change the number of characters and
    look at the context of a character.  That database is not part of
    the repository: [do_lower] stands for its mapping of the strings that
    are not ASCII. *)
Definition lower (do_lower : string → string) (s : string) : string :=
  if isascii s then ascii_lower s else do_lower s.

(** Exceptions that the module can let escape. *)
Inductive exn : Type :=
| KeyError (key : Z).

#[global] Instance exn_eq_dec : EqDecision exn.
Proof. solve_decision. Defined.

(** [d[k] = v], for a pair [(k, v)]. *)
Definition setitem {V} (d : gmap Z V) (kv : Z * V) : gmap Z V :=
  <[kv.1 := kv.2]> d.

(** [dict(pairs)]: the pairs are inserted from first to last, so a later
    pair overrides an earlier one with the same key. *)
Definition dict {V} (pairs : list (Z * V)) : gmap Z V :=
  fold_left setitem pairs ∅.

(** [d[k]]: the value, or [KeyError]. *)
Definition getitem {V} (d : gmap Z V) (k : Z) : exn + V :=
  match d !! k with
  | Some v => inr v
  | None => inl (KeyError k)
  end.

End Python.

(** ** The relational schema *)

(** Rows of the tables, one record per table, columns as in the models.
    Time stamps are seconds as integers, an image is its path. *)

Record UserRow : Type := mkUserRow {
  user_id : Z;
  username : string;
  is_staff : bool
}.

Record PostRow : Type := mkPostRow {
  post_id : Z;
  post_title : string;
  post_text : string;
  post_slug : string;
  post_image : string;
  post_published_at : Z;
  post_author_id : Z
}.

Record TagRow : Type := mkTagRow {
  tag_id : Z;
  tag_title : string
}.

Record CommentRow : Type := mkCommentRow {
  comment_id : Z;
  comment_post_id : Z;
  comment_author_id : Z;
  comment_text : string;
  comment_published_at : Z
}.

#[global] Instance UserRow_eq_dec : EqDecision UserRow.
Proof. solve_decision. Defined.
#[global] Instance PostRow_eq_dec : EqDecision PostRow.
Proof. solve_decision. Defined.
#[global] Instance TagRow_eq_dec : EqDecision TagRow.
Proof. solve_decision. Defined.
#[global] Instance CommentRow_eq_dec : EqDecision CommentRow.
Proof. solve_decision. Defined.

(** Rows of the two many-to-many tables: [Post.likes] is
    [blog_post_likes (post_id, user_id)] and [Post.tags] is
    [blog_post_tags (post_id, tag_id)]. *)
Record LikeRow : Type := mkLikeRow { like_post_id : Z; like_user_id : Z }.
Record PostTagRow : Type := mkPostTagRow { pt_post_id : Z; pt_tag_id : Z }.

#[global] Instance LikeRow_eq_dec : EqDecision LikeRow.
Proof. solve_decision. Defined.
#[global] Instance PostTagRow_eq_dec : EqDecision PostTagRow.
Proof. solve_decision. Defined.

Record DB : Type := mkDB {
  auth_user : list UserRow;
  blog_post : list PostRow;
  blog_post_likes : list LikeRow;
  blog_post_tags : list PostTagRow;
  blog_tag : list TagRow;
  blog_comment : list CommentRow;
  (* the largest key that [blog_tag] has handed out so far: the key
     column is AUTOINCREMENT, a key is never given a second time *)
  blog_tag_sequence : Z
}.

(** What [on_delete=] of a foreign key can say. *)
Inductive on_delete : Type := CASCADE | PROTECT | DO_NOTHING.

(** Errors that the ORM raises when a write is refused. *)
Inductive orm_error : Type :=
| IntegrityError       (* a UNIQUE constraint would be broken *)
| ProtectedError       (* a protected row would lose its parent *)
| OverflowError        (* a key does not fit the 64 bits of the column *)
| OperationalError.    (* the table has run out of keys *)

(** *** Integrity constraints kept by the database *)

(** Primary keys are unique. *)
Definition pk_unique_user (db : DB) : Prop := NoDup (user_id <$> auth_user db).
Definition pk_unique_post (db : DB) : Prop := NoDup (post_id <$> blog_post db).
Definition pk_unique_tag (db : DB) : Prop := NoDup (tag_id <$> blog_tag db).

(** A many-to-many table holds a pair at most once. *)
Definition unique_post_tags (db : DB) : Prop := NoDup (blog_post_tags db).
Definition unique_post_likes (db : DB) : Prop := NoDup (blog_post_likes db).

(** Foreign keys point to existing rows. *)
Definition fk_post_tags_post (db : DB) : Prop :=
  Forall (λ r, pt_post_id r ∈ post_id <$> blog_post db) (blog_post_tags db).
Definition fk_comment_post (db : DB) : Prop :=
  Forall (λ c, comment_post_id c ∈ post_id <$> blog_post db) (blog_comment db).

(** ** Relational operations the ORM compiles query sets to *)

Section Relational.
Context {A B : Type} (on : A → B → bool).

(** The rows of [lb] that the ON condition pairs with [a]. *)
Definition matching (lb : list B) (a : A) : list B := filter (λ b, on a b) lb.

(** [la INNER JOIN lb ON on]. *)
Definition inner_join (la : list A) (lb : list B) : list (A * B) :=
  a ← la; (λ b, (a, b)) <$> matching lb a.

(** One row of [la] in a LEFT OUTER JOIN: its partners, or a single
    NULL-extended row when it has none. *)
Definition null_extend (a : A) (bs : list B) : list (A * option B) :=
  match bs with
  | [] => [(a, None)]
  | _ => (λ b, (a, Some b)) <$> bs
  end.

(** [la LEFT OUTER JOIN lb ON on]. *)
Definition left_outer_join (la : list A) (lb : list B) : list (A * option B) :=
  a ← la; null_extend a (matching lb a).

End Relational.

(** [GROUP BY] on the first component: one group per distinct key, holding
    the rows that carry the key. *)
Definition group_by {K V : Type} `{EqDecision K}
    (rows : list (K * V)) : list (K * list V) :=
  (λ k, (k, snd <$> filter (λ kv, kv.1 = k) rows)) <$> remove_dups (fst <$> rows).

(** A column of the right side of a LEFT OUTER JOIN, NULL where the row
    has no partner, and its values that are not NULL. *)
Definition column {B C : Type} (f : B → C) (rows : list (option B)) : list (option C) :=
  (λ r : option B, f <$> r) <$> rows.

Definition non_null {C : Type} (col : list (option C)) : list C :=
  omap (λ v, v) col.

(** [COUNT(col)] over a group: NULLs are not counted.
    [COUNT(DISTINCT col)]: nor are repeated values. *)
Definition COUNT {C : Type} (col : list (option C)) : nat :=
  length (non_null col).

Definition COUNT_DISTINCT {C : Type} `{EqDecision C} (col : list (option C)) : nat :=
  length (remove_dups (non_null col)).

(** [ORDER BY key DESC] and [ORDER BY key ASC] for a numeric key.  What
    SQL leaves open, the order between rows of equal key, is here the
    order the merge sort gives. *)
Definition desc {A : Type} (key : A → Z) : relation A := λ a b, key b ≤ key a.
Definition asc {A : Type} (key : A → Z) : relation A := λ a b, key a ≤ key b.

#[global] Instance desc_dec {A : Type} (key : A → Z) : RelDecision (desc key).
Proof. intros a b. unfold desc. apply _. Defined.
#[global] Instance asc_dec {A : Type} (key : A → Z) : RelDecision (asc key).
Proof. intros a b. unfold asc. apply _. Defined.

#[global] Instance desc_total {A : Type} (key : A → Z) : Total (desc key).
Proof. intros a b. unfold desc. lia. Qed.
#[global] Instance desc_trans {A : Type} (key : A → Z) : Transitive (desc key).
Proof. intros a b c. unfold desc. lia. Qed.
#[global] Instance asc_total {A : Type} (key : A → Z) : Total (asc key).
Proof. intros a b. unfold asc. lia. Qed.
#[global] Instance asc_trans {A : Type} (key : A → Z) : Transitive (asc key).
Proof. intros a b c. unfold asc. lia. Qed.

Definition order_by_desc {A : Type} (key : A → Z) (l : list A) : list A :=
  merge_sort (desc key) l.

Definition order_by_asc {A : Type} (key : A → Z) (l : list A) : list A :=
  merge_sort (asc key) l.

(** ** Model instances *)

(** An instance carries the columns of its row; an annotation
    ([posts_count], [likes_count], [comments_count]) or a cache of related
    objects is an attribute that is there ([Some]) or not ([None]). *)

Module Tag.

Record t : Type := mk {
  pk : option Z;                (* None until the tag is saved *)
  title : string;
  posts_count : option nat      (* annotation *)
}.

Definition from_db (r : TagRow) : t := mk (Some (tag_id r)) (tag_title r) None.

(** The instance without its annotation. *)
Definition without_annotation (self : t) : t := mk (pk self) (title self) None.

(** [Tag.clean]: [self.title = self.title.lower()]. *)
Definition clean (do_lower : string → string) (self : t) : t :=
  mk (pk self) (Python.lower do_lower (title self)) (posts_count self).

(** The key column holds signed integers of 64 bits. *)
Definition min_key : Z := - 2 ^ 63.
Definition max_key : Z := 2 ^ 63 - 1.

(** The key an INSERT without a key gets: the one after the last that
    the table has handed out, also when the row of that key is gone. *)
Definition next_key (db : DB) : Z := blog_tag_sequence db + 1.

(** [Tag.title] is declared [unique=True]: does a row of another key
    have the title? *)
Definition title_taken (db : DB) (key : Z) (title : string) : Prop :=
  Exists (λ r, tag_title r = title ∧ tag_id r ≠ key) (blog_tag db).

#[global] Instance title_taken_dec db key title : Decision (title_taken db key title).
Proof. unfold title_taken. apply _. Defined.

(** UPDATE of the row that has the key of [r], or INSERT of [r] when
    there is none; an INSERT moves the sequence up to the key. *)
Definition write_row (r : TagRow) (db : DB) : DB :=
  if decide (tag_id r ∈ tag_id <$> blog_tag db)
  then mkDB (auth_user db) (blog_post db) (blog_post_likes db) (blog_post_tags db)
         ((λ r', if decide (tag_id r' = tag_id r) then r else r') <$> blog_tag db)
         (blog_comment db) (blog_tag_sequence db)
  else mkDB (auth_user db) (blog_post db) (blog_post_likes db) (blog_post_tags db)
         (blog_tag db ++ [r])
         (blog_comment db) (Z.max (blog_tag_sequence db) (tag_id r)).

Definition store (db : DB) (key : Z) (self : t) : orm_error + DB * t :=
  if decide (title_taken db key (title self))
  then inl IntegrityError
  else inr (write_row (mkTagRow key (title self)) db,
            mk (Some key) (title self) (posts_count self)).

(** [Model.save] for a tag.  With a primary key set the row of that key
    is rewritten, or inserted when there is none; a key outside the 64
    bits of the column cannot be handed to the database.  Without one a
    row is inserted under the next key of the table, which is refused
    once the keys are used up, and also when a row written with a key of
    its own sits there already.  In both cases the write is refused when
    another tag has the title.  Returns the database and the saved
    instance.  ([save] does not call [clean]; the validation of a form
    or an explicit [full_clean] does.) *)
Definition save (db : DB) (self : t) : orm_error + DB * t :=
  match pk self with
  | Some key =>
      if decide (min_key ≤ key ≤ max_key) then store db key self
      else inl OverflowError
  | None =>
      let key := next_key db in
      if decide (max_key < key) then inl OperationalError
      else if decide (key ∈ tag_id <$> blog_tag db) then inl IntegrityError
      else store db key self
  end.

End Tag.

Module Comment.

Record t : Type := mk {
  row : CommentRow;
  author : option UserRow       (* filled by select_related('author') *)
}.

Definition post_id (self : t) : Z := comment_post_id (row self).

End Comment.

Module Post.

Record t : Type := mk {
  row : PostRow;
  author : option UserRow;                  (* filled by select_related('author') *)
  prefetched_tags : option (list Tag.t);    (* filled by prefetch_related *)
  prefetched_comments : option (list Comment.t);
  likes_count : option nat;                 (* annotation *)
  comments_count : option nat               (* set by fetch_with_comments_count *)
}.

Definition id (self : t) : Z := post_id (row self).

(** What an instance has from the query of its own table: the columns,
    the joined author and the annotations. *)
Definition own_attributes (self : t)
    : PostRow * option UserRow * option nat * option nat :=
  (row self, author self, likes_count self, comments_count self).

(** [post.comments_count = n]. *)
Definition set_comments_count (n : nat) (self : t) : t :=
  mk (row self) (author self) (prefetched_tags self) (prefetched_comments self)
     (likes_count self) (Some n).

Definition set_prefetched_tags (tags : list Tag.t) (self : t) : t :=
  mk (row self) (author self) (Some tags) (prefetched_comments self)
     (likes_count self) (comments_count self).

Definition set_prefetched_comments (cs : list Comment.t) (self : t) : t :=
  mk (row self) (author self) (prefetched_tags self) (Some cs)
     (likes_count self) (comments_count self).

(** [Comment.post = models.ForeignKey('Post', on_delete=models.CASCADE, ...)] *)
Definition Comment_post_on_delete : on_delete := CASCADE.

(** Deleting the post of key [key] when the foreign key of the comments
    has policy [policy].  The rows of the two many-to-many tables always
    go with the post.  With [CASCADE] the comments of the post go too,
    with [PROTECT] the deletion is refused while the post has comments,
    with [DO_NOTHING] the comments are left alone. *)
Definition without_post (db : DB) (key : Z) (comments : list CommentRow) : DB :=
  mkDB (auth_user db)
       (filter (λ p, post_id p ≠ key) (blog_post db))
       (filter (λ l, like_post_id l ≠ key) (blog_post_likes db))
       (filter (λ pt, pt_post_id pt ≠ key) (blog_post_tags db))
       (blog_tag db)
       comments
       (blog_tag_sequence db).

Definition delete_with (policy : on_delete) (db : DB) (key : Z) : orm_error + DB :=
  match policy with
  | CASCADE =>
      inr (without_post db key (filter (λ c, comment_post_id c ≠ key) (blog_comment db)))
  | PROTECT =>
      if decide (filter (λ c, comment_post_id c = key) (blog_comment db) = [])
      then inr (without_post db key (blog_comment db))
      else inl ProtectedError
  | DO_NOTHING => inr (without_post db key (blog_comment db))
  end.

(** [post.delete()] *)
Definition delete (db : DB) (self : t) : orm_error + DB :=
  delete_with Comment_post_on_delete db (id self).

End Post.

(** ** Query sets *)

(** A query set is a description of a query; its methods return a changed
    copy and nothing is sent to the database before the query set is
    iterated.  The query sets here are those reached from a manager with
    [filter] on the model's own columns, [select_related],
    [prefetch_related], [annotate] and [order_by]. *)

(** SQL statements, as far as the connection log tells them apart. *)
Inductive statement : Type :=
| SELECT_blog_post                               (* the query of a Post query set *)
| SELECT_blog_post_comments_count (ids : list Z) (* posts WHERE id IN ids, COUNT(comments) *)
| SELECT_blog_tag_prefetch (post_ids : list Z)   (* tags of the posts in post_ids *)
| SELECT_blog_comment_prefetch (post_ids : list Z).

Module TagQuerySet.

Inductive ordering : Type :=
| meta_ordering            (* Tag.Meta.ordering = ['title'] *)
| minus_posts_count.       (* order_by('-posts_count') *)

Record t : Type := mk {
  where_ : TagRow → bool;          (* the WHERE clause *)
  posts_count : bool;              (* annotate(posts_count=Count('posts')) was called *)
  order : ordering
}.

(** [Tag.objects], from [TagQuerySet.as_manager()]. *)
Definition objects : t := mk (λ _, true) false meta_ordering.

Definition filter_ (cond : TagRow → bool) (self : t) : t :=
  mk (λ r, where_ self r && cond r) (posts_count self) (order self).

(** [self.annotate(posts_count=Count('posts'))] *)
Definition annotate_posts_count (self : t) : t :=
  mk (where_ self) true (order self).

(** [self.order_by('-posts_count')] *)
Definition order_by_minus_posts_count (self : t) : t :=
  mk (where_ self) (posts_count self) minus_posts_count.

(** [TagQuerySet.popular] *)
Definition popular (self : t) : t :=
  let popular_tags := order_by_minus_posts_count (annotate_posts_count self) in
  popular_tags.

(** *** Evaluation *)

Definition rows (db : DB) (self : t) : list TagRow :=
  filter (λ r, where_ self r) (blog_tag db).

(** [blog_tag LEFT OUTER JOIN blog_post_tags ON tag_id = blog_tag.id] *)
Definition join_posts (db : DB) (self : t) : list (TagRow * option PostTagRow) :=
  left_outer_join (λ r pt, bool_decide (pt_tag_id pt = tag_id r))
    (rows db self) (blog_post_tags db).

(** One group of [GROUP BY blog_tag.id, blog_tag.title] as an instance,
    [posts_count] being [COUNT(blog_post_tags.post_id)]. *)
Definition instance_of_group (g : TagRow * list (option PostTagRow)) : Tag.t :=
  Tag.mk (Some (tag_id g.1)) (tag_title g.1) (Some (COUNT (column pt_post_id g.2))).

Definition title_le : relation Tag.t :=
  λ a b, String.leb (Tag.title a) (Tag.title b).

#[global] Instance title_le_dec : RelDecision title_le.
Proof. intros a b. unfold title_le. apply _. Defined.

(** The sort key of [-posts_count]; the ORM refuses the ordering when the
    annotation is missing, so the default is never looked at by
    [popular]. *)
Definition posts_count_key (tag : Tag.t) : Z :=
  Z.of_nat (default 0%nat (Tag.posts_count tag)).

(** The ordering of [Meta] is left out of a query that has GROUP BY; the
    groups then come in the order of their first rows. *)
Definition select (db : DB) (self : t) : list Tag.t :=
  let instances :=
    if posts_count self
    then instance_of_group <$> group_by (join_posts db self)
    else Tag.from_db <$> rows db self in
  match order self with
  | meta_ordering =>
      if posts_count self then instances else merge_sort title_le instances
  | minus_posts_count => order_by_desc posts_count_key instances
  end.

(** *** The query of a prefetch *)

(** The tags of the posts of keys [post_ids], as [prefetch_related] asks
    for them with [queryset]: the query of [queryset] with
    [INNER JOIN blog_post_tags T ON T.tag_id = blog_tag.id] and
    [WHERE T.post_id IN post_ids] added by the filter on the posts, and
    with [blog_post_tags.post_id], the key of the post a row is for,
    selected beside the tag.

    When [queryset] counts the posts, that column is the one of the join
    of the annotation, which the filter does not use again: the column
    enters GROUP BY, a group is a tag with one of its posts, and its rows
    are the rows of [T], so that [COUNT] gives the number of posts of the
    batch that carry the tag.  Without the annotation [T] is the only
    join and the column is its own. *)
Definition in_batch (post_ids : list Z) (r : TagRow) (pt : PostTagRow) : bool :=
  bool_decide (pt_tag_id pt = tag_id r ∧ pt_post_id pt ∈ post_ids).

Definition join_batch (db : DB) (self : t) (post_ids : list Z)
    : list ((TagRow * option PostTagRow) * PostTagRow) :=
  inner_join (λ j pt, in_batch post_ids j.1 pt) (join_posts db self) (blog_post_tags db).

(** One group of [GROUP BY blog_tag.id, blog_tag.title, blog_post_tags.post_id]:
    the key of the post and the instance, the counted column having the
    value of the group in each of its rows. *)
Definition instance_of_batch_group
    (g : (TagRow * option PostTagRow) * list PostTagRow) : option (Z * Tag.t) :=
  (λ pt, (pt_post_id pt, instance_of_group (g.1.1, (λ _, g.1.2) <$> g.2))) <$> g.1.2.

Definition instance_of_batch_row (rp : TagRow * PostTagRow) : Z * Tag.t :=
  (pt_post_id rp.2, Tag.from_db rp.1).

Definition title_le_2 : relation (Z * Tag.t) := λ a b, title_le a.2 b.2.

#[global] Instance title_le_2_dec : RelDecision title_le_2.
Proof. intros a b. unfold title_le_2. apply _. Defined.

Definition select_for_posts (db : DB) (self : t) (post_ids : list Z)
    : list (Z * Tag.t) :=
  let instances :=
    if posts_count self
    then omap instance_of_batch_group (group_by (join_batch db self post_ids))
    else instance_of_batch_row <$>
           inner_join (in_batch post_ids) (rows db self) (blog_post_tags db) in
  match order self with
  | meta_ordering =>
      if posts_count self then instances else merge_sort title_le_2 instances
  | minus_posts_count => order_by_desc (λ kt, posts_count_key kt.2) instances
  end.

End TagQuerySet.

Module CommentQuerySet.

Record t : Type := mk {
  select_related_author : bool
}.

(** [Comment.objects] *)
Definition objects : t := mk false.

(** [self.select_related('author')] *)
Definition select_related (self : t) : t := mk true.

Definition published_at_key (c : Comment.t) : Z :=
  comment_published_at (Comment.row c).

(** The comments of the posts in [post_ids], as the prefetch asks for
    them; [select_related] is an INNER JOIN with [auth_user], and
    [Comment.Meta.ordering] is [['published_at']]. *)
Definition select_for_posts (db : DB) (self : t) (post_ids : list Z) : list Comment.t :=
  let rows := filter (λ c, comment_post_id c ∈ post_ids) (blog_comment db) in
  let instances :=
    if select_related_author self
    then (λ cu, Comment.mk cu.1 (Some cu.2)) <$>
           inner_join (λ c u, bool_decide (user_id u = comment_author_id c))
             rows (auth_user db)
    else (λ c, Comment.mk c None) <$> rows in
  order_by_asc published_at_key instances.

End CommentQuerySet.

Module PostQuerySet.

Inductive ordering : Type :=
| meta_ordering            (* Post.Meta.ordering = ['-published_at'] *)
| minus_likes_count.       (* order_by('-likes_count') *)

(** The two kinds of [Prefetch(...)] object the module builds. *)
Inductive prefetch : Type :=
| Prefetch_tags (queryset : TagQuerySet.t)
| Prefetch_comments (queryset : CommentQuerySet.t).

Record t : Type := mk {
  where_ : PostRow → bool;                  (* the WHERE clause *)
  select_related_author : bool;             (* select_related('author') was called *)
  prefetch_related_lookups : list prefetch;
  likes_count : option bool;                (* annotate(likes_count=Count('likes', distinct=b)) *)
  order : ordering;
  result_cache : option (list Post.t)       (* the instances, once the query has run *)
}.

(** [Post.objects], from [PostQuerySet.as_manager()]. *)
Definition objects : t := mk (λ _, true) false [] None meta_ordering None.

(** Every method below returns a copy that has not been evaluated. *)

Definition filter_ (cond : PostRow → bool) (self : t) : t :=
  mk (λ r, where_ self r && cond r) (select_related_author self)
     (prefetch_related_lookups self) (likes_count self) (order self) None.

(** [self.select_related('author')] *)
Definition select_related (self : t) : t :=
  mk (where_ self) true (prefetch_related_lookups self) (likes_count self)
     (order self) None.

(** [self.prefetch_related(lookup, ...)] *)
Definition prefetch_related (lookups : list prefetch) (self : t) : t :=
  mk (where_ self) (select_related_author self)
     (prefetch_related_lookups self ++ lookups) (likes_count self) (order self) None.

(** [self.annotate(likes_count=Count('likes', distinct=distinct))] *)
Definition annotate_likes_count (distinct : bool) (self : t) : t :=
  mk (where_ self) (select_related_author self) (prefetch_related_lookups self)
     (Some distinct) (order self) None.

(** [self.order_by('-likes_count')] *)
Definition order_by_minus_likes_count (self : t) : t :=
  mk (where_ self) (select_related_author self) (prefetch_related_lookups self)
     (likes_count self) minus_likes_count None.

(** [PostQuerySet.base_post_queryset] *)
Definition base_post_queryset (self : t) : t :=
  annotate_likes_count true
    (prefetch_related
       [Prefetch_tags (TagQuerySet.annotate_posts_count TagQuerySet.objects);
        Prefetch_comments (CommentQuerySet.select_related CommentQuerySet.objects)]
       (select_related self)).

(** [PostQuerySet.popular] *)
Definition popular (self : t) : t :=
  order_by_minus_likes_count (annotate_likes_count false self).

(** *** Evaluation *)

Definition rows (db : DB) (self : t) : list PostRow :=
  filter (λ r, where_ self r) (blog_post db).

(** [FROM blog_post], with [INNER JOIN auth_user ON author_id = auth_user.id]
    under [select_related('author')]. *)
Definition from_clause (db : DB) (self : t) : list (PostRow * option UserRow) :=
  if select_related_author self
  then (λ pu, (pu.1, Some pu.2)) <$>
         inner_join (λ p u, bool_decide (user_id u = post_author_id p))
           (rows db self) (auth_user db)
  else (λ p, (p, None)) <$> rows db self.

(** [... LEFT OUTER JOIN blog_post_likes ON post_id = blog_post.id] *)
Definition join_likes (db : DB) (self : t)
    : list ((PostRow * option UserRow) * option LikeRow) :=
  left_outer_join (λ pu l, bool_decide (like_post_id l = post_id pu.1))
    (from_clause db self) (blog_post_likes db).

(** [COUNT(blog_post_likes.user_id)], with [DISTINCT] when asked for. *)
Definition count_likes (distinct : bool) (likes : list (option LikeRow)) : nat :=
  if distinct
  then COUNT_DISTINCT (column like_user_id likes)
  else COUNT (column like_user_id likes).

Definition instance_of_group (distinct : bool)
    (g : (PostRow * option UserRow) * list (option LikeRow)) : Post.t :=
  Post.mk g.1.1 g.1.2 None None (Some (count_likes distinct g.2)) None.

Definition instance_of_row (pu : PostRow * option UserRow) : Post.t :=
  Post.mk pu.1 pu.2 None None None None.

Definition published_at_key (post : Post.t) : Z :=
  post_published_at (Post.row post).

(** The sort key of [-likes_count]; as for tags, the default is not looked
    at when the annotation is there. *)
Definition likes_count_key (post : Post.t) : Z :=
  Z.of_nat (default 0%nat (Post.likes_count post)).

(** The query of the query set itself: one SELECT.  As for tags, the
    ordering of [Meta] is left out when the query has GROUP BY. *)
Definition select (db : DB) (self : t) : list Post.t :=
  let instances :=
    match likes_count self with
    | Some distinct => instance_of_group distinct <$> group_by (join_likes db self)
    | None => instance_of_row <$> from_clause db self
    end in
  match order self with
  | meta_ordering =>
      match likes_count self with
      | Some _ => instances
      | None => order_by_desc published_at_key instances
      end
  | minus_likes_count => order_by_desc likes_count_key instances
  end.

(** One lookup of [prefetch_related]: a single SELECT restricted to the
    keys of the instances, whose rows are then handed out to the instance
    they belong to. *)
Definition prefetch_one_level (db : DB) (lookup : prefetch)
    (instances : list Post.t) : list Post.t * statement :=
  let post_ids := Post.id <$> instances in
  match lookup with
  | Prefetch_tags queryset =>
      let tags := TagQuerySet.select_for_posts db queryset post_ids in
      ((λ post,
          Post.set_prefetched_tags
            (snd <$> filter (λ kt, kt.1 = Post.id post) tags) post) <$> instances,
       SELECT_blog_tag_prefetch post_ids)
  | Prefetch_comments queryset =>
      let comments := CommentQuerySet.select_for_posts db queryset post_ids in
      ((λ post,
          Post.set_prefetched_comments
            (filter (λ c, bool_decide (Comment.post_id c = Post.id post)) comments)
            post) <$> instances,
       SELECT_blog_comment_prefetch post_ids)
  end.

(** [prefetch_related_objects]: nothing is asked when there is no
    instance, else the lookups are served one after the other. *)
Definition prefetch_related_objects (db : DB) (instances : list Post.t)
    (lookups : list prefetch) : list Post.t * list statement :=
  match instances with
  | [] => ([], [])
  | _ =>
      foldl (λ acc lookup,
               let r := prefetch_one_level db lookup acc.1 in
               (r.1, acc.2 ++ [r.2]))
            (instances, []) lookups
  end.

Definition set_result_cache (instances : list Post.t) (self : t) : t :=
  mk (where_ self) (select_related_author self) (prefetch_related_lookups self)
     (likes_count self) (order self) (Some instances).

(** Iterating a query set ([for post in self]) first fills its cache, when
    it is empty, by running the query and the prefetches; the statements
    sent are returned with the query set. *)
Definition fetch_all (db : DB) (self : t) : t * list statement :=
  match result_cache self with
  | Some _ => (self, [])
  | None =>
      let r := prefetch_related_objects db (select db self)
                 (prefetch_related_lookups self) in
      (set_result_cache r.1 self, SELECT_blog_post :: r.2)
  end.

(** The instances a query set yields when iterated over [db]. *)
Definition instances (db : DB) (self : t) : list Post.t :=
  default [] (result_cache (fetch_all db self).1).

(** *** [fetch_with_comments_count] *)

(** [Post.objects.filter(id__in=ids).annotate(comments_count=Count('comments'))
      .values_list('id', 'comments_count')]:
    [blog_post LEFT OUTER JOIN blog_comment ON post_id = blog_post.id
     WHERE blog_post.id IN ids GROUP BY blog_post.*], with
    [COUNT(blog_comment.id)]. *)
Definition posts_with_comments (db : DB) (ids : list Z)
    : list (PostRow * list (option CommentRow)) :=
  group_by
    (left_outer_join (λ p c, bool_decide (comment_post_id c = post_id p))
       (filter (λ p, post_id p ∈ ids) (blog_post db)) (blog_comment db)).

Definition values_list_id_comments_count
    (groups : list (PostRow * list (option CommentRow))) : list (Z * nat) :=
  (λ g, (post_id g.1, COUNT (column comment_id g.2))) <$> groups.

(** The loop [for post in self: post.comments_count = count_for_id[post.id]]
    over the cached instances.  It stops at the first key that is missing;
    the instances before it have been written to by then. *)
Fixpoint assign_comments_count (count_for_id : gmap Z nat) (posts : list Post.t)
    : list Post.t * option Python.exn :=
  match posts with
  | [] => ([], None)
  | post :: rest =>
      match Python.getitem count_for_id (Post.id post) with
      | inl e => (post :: rest, Some e)
      | inr n =>
          let r := assign_comments_count count_for_id rest in
          (Post.set_comments_count n post :: r.1, r.2)
      end
  end.

(** What a call leaves behind: the receiver as it is afterwards, the
    statements sent, and the value returned or the exception raised. *)
Record outcome : Type := mk_outcome {
  self_after : t;
  statements : list statement;
  result : Python.exn + t
}.

Definition fetch_with_comments_count (db : DB) (self : t) : outcome :=
  let (self1, sent) := fetch_all db self in
  let posts := default [] (result_cache self1) in
  let most_popular_posts_ids := Post.id <$> posts in
  let posts_with_comments := posts_with_comments db most_popular_posts_ids in
  let ids_and_comments := values_list_id_comments_count posts_with_comments in
  let count_for_id := Python.dict ids_and_comments in
  let (posts', raised) := assign_comments_count count_for_id posts in
  let self2 := set_result_cache posts' self1 in
  mk_outcome self2
    (sent ++ match most_popular_posts_ids with
             | [] => []      (* [id IN ()] is answered without asking *)
             | _ => [SELECT_blog_post_comments_count most_popular_posts_ids]
             end)
    (match raised with
     | Some e => inl e
     | None => inr self2
     end).

End PostQuerySet.

(** ** What the annotations count *)

(** The posts that [blog_post_tags] relates to the tag of key [tag_key]. *)
Definition number_of_posts (db : DB) (tag_key : Z) : nat :=
  length (filter (λ p, mkPostTagRow (post_id p) tag_key ∈ blog_post_tags db)
            (blog_post db)).

(** The posts among those of keys [post_ids] that [blog_post_tags]
    relates to the tag of key [tag_key], as rows of [blog_post_tags]. *)
Definition number_of_posts_among (db : DB) (post_ids : list Z) (tag_key : Z) : nat :=
  length (filter (λ pt, pt_tag_id pt = tag_key ∧ pt_post_id pt ∈ post_ids)
            (blog_post_tags db)).

(** The likes a post has got, and the users they come from. *)
Definition number_of_likes (db : DB) (post_key : Z) : nat :=
  length (filter (λ l, like_post_id l = post_key) (blog_post_likes db)).

Definition number_of_likers (db : DB) (post_key : Z) : nat :=
  length (remove_dups
            (like_user_id <$> filter (λ l, like_post_id l = post_key) (blog_post_likes db))).

(** The comments whose post is the post of key [post_key]. *)
Definition number_of_comments (db : DB) (post_key : Z) : nat :=
  length (filter (λ c, comment_post_id c = post_key) (blog_comment db)).

(** Two instances of a post that differ at most in [comments_count]. *)
Definition same_but_comments_count (p p' : Post.t) : Prop :=
  Post.row p' = Post.row p ∧
  Post.author p' = Post.author p ∧
  Post.prefetched_tags p' = Post.prefetched_tags p ∧
  Post.prefetched_comments p' = Post.prefetched_comments p ∧
  Post.likes_count p' = Post.likes_count p.

(** Two query sets that describe the same query. *)
Definition same_query (qs qs' : PostQuerySet.t) : Prop :=
  PostQuerySet.where_ qs' = PostQuerySet.where_ qs ∧
  PostQuerySet.select_related_author qs' = PostQuerySet.select_related_author qs ∧
  PostQuerySet.prefetch_related_lookups qs' = PostQuerySet.prefetch_related_lookups qs ∧
  PostQuerySet.likes_count qs' = PostQuerySet.likes_count qs ∧
  PostQuerySet.order qs' = PostQuerySet.order qs.

(** A statement of a prefetch: one SELECT for a whole batch of posts. *)
Definition is_batch_fetch (s : statement) : Prop :=
  match s with
  | SELECT_blog_tag_prefetch _ | SELECT_blog_comment_prefetch _ => True
  | _ => False
  end.

(** An ASCII capital letter. *)
Definition is_upper (c : ascii) : Prop :=
  (65 ≤ nat_of_ascii c ≤ 90)%nat.

(** ** A small blog *)

Module Sample.

Definition ann : UserRow := mkUserRow 1 "ann" true.
Definition bob : UserRow := mkUserRow 2 "bob" false.

Definition first : PostRow := mkPostRow 1 "One" "..." "one" "1.png" 100 1.
Definition second : PostRow := mkPostRow 2 "Two" "..." "two" "2.png" 200 1.
Definition third : PostRow := mkPostRow 3 "Three" "..." "three" "3.png" 300 1.

Definition db : DB :=
  mkDB [ann; bob]
       [first; second; third]
       [mkLikeRow 2 1; mkLikeRow 2 2; mkLikeRow 3 1]
       [mkPostTagRow 1 10; mkPostTagRow 2 10; mkPostTagRow 2 20]
       [mkTagRow 10 "django"; mkTagRow 20 "orm"; mkTagRow 30 "sql"]
       [mkCommentRow 1 2 2 "hi" 5; mkCommentRow 2 2 1 "ho" 4; mkCommentRow 3 1 2 "hm" 9]
       30.

(** [Post.objects.all()], evaluated over [db]. *)
Definition evaluated : PostQuerySet.t :=
  (PostQuerySet.fetch_all db PostQuerySet.objects).1.

(** The blog after the third post has been deleted, behind the back of
    the query set above, which still holds it. *)
Definition db_without_third : DB :=
  match Post.delete db (Post.mk third None None None None None) with
  | inr db' => db'
  | inl _ => db
  end.

End Sample.

(** ** The rest of the schema *)

(** [Post.author] and [Comment.author] are declared with
    [on_delete=models.CASCADE] too. *)
Definition Post_author_on_delete : on_delete := CASCADE.
Definition Comment_author_on_delete : on_delete := CASCADE.

(** The other foreign keys, and the UNIQUE constraint of [Tag.title]. *)
Definition fk_post_author (db : DB) : Prop :=
  Forall (λ p, post_author_id p ∈ user_id <$> auth_user db) (blog_post db).
Definition fk_comment_author (db : DB) : Prop :=
  Forall (λ c, comment_author_id c ∈ user_id <$> auth_user db) (blog_comment db).
Definition fk_post_likes_post (db : DB) : Prop :=
  Forall (λ l, like_post_id l ∈ post_id <$> blog_post db) (blog_post_likes db).
Definition fk_post_likes_user (db : DB) : Prop :=
  Forall (λ l, like_user_id l ∈ user_id <$> auth_user db) (blog_post_likes db).
Definition unique_tag_title (db : DB) : Prop := NoDup (tag_title <$> blog_tag db).
Definition pk_unique_comment (db : DB) : Prop := NoDup (comment_id <$> blog_comment db).
Definition fk_post_tags_tag (db : DB) : Prop :=
  Forall (λ r, pt_tag_id r ∈ tag_id <$> blog_tag db) (blog_post_tags db).

(** A database that keeps every constraint the models declare. *)
Record consistent (db : DB) : Prop := mk_consistent {
  users_have_unique_keys : pk_unique_user db;
  posts_have_unique_keys : pk_unique_post db;
  tags_have_unique_keys : pk_unique_tag db;
  comments_have_unique_keys : pk_unique_comment db;
  tags_have_unique_titles : unique_tag_title db;
  likes_are_unique : unique_post_likes db;
  post_tags_are_unique : unique_post_tags db;
  posts_have_authors : fk_post_author db;
  comments_have_posts : fk_comment_post db;
  comments_have_authors : fk_comment_author db;
  likes_have_posts : fk_post_likes_post db;
  likes_have_users : fk_post_likes_user db;
  post_tags_have_posts : fk_post_tags_post db;
  post_tags_have_tags : fk_post_tags_tag db
}.

Module User.

(** Deleting the posts of keys [keys] one after the other, each with what
    hangs on it; an error of one deletion is the error of the whole. *)
Definition delete_posts (db : DB) (keys : list Z) : orm_error + DB :=
  foldl (λ acc key,
           match acc with
           | inr db' => Post.delete_with Post.Comment_post_on_delete db' key
           | inl e => inl e
           end)
        (inr db) keys.

(** Deleting the user of key [key] when the foreign keys [Post.author]
    and [Comment.author] have the policies [post_policy] and
    [comment_policy]: the posts of the user are collected first, each
    with what the deletion of a post takes along, then the comments the
    user wrote; the likes of the user always go with the user. *)
Definition delete_with (post_policy comment_policy : on_delete)
    (db : DB) (key : Z) : orm_error + DB :=
  let own_posts := post_id <$> filter (λ p, post_author_id p = key) (blog_post db) in
  let without_posts :=
    match post_policy with
    | CASCADE => delete_posts db own_posts
    | PROTECT => if decide (own_posts = []) then inr db else inl ProtectedError
    | DO_NOTHING => inr db
    end in
  match without_posts with
  | inl e => inl e
  | inr db1 =>
      let comments_left :=
        match comment_policy with
        | CASCADE => inr (filter (λ c, comment_author_id c ≠ key) (blog_comment db1))
        | PROTECT =>
            if decide (filter (λ c, comment_author_id c = key) (blog_comment db1) = [])
            then inr (blog_comment db1) else inl ProtectedError
        | DO_NOTHING => inr (blog_comment db1)
        end in
      match comments_left with
      | inl e => inl e
      | inr comments =>
          inr (mkDB (filter (λ u, user_id u ≠ key) (auth_user db1))
                    (blog_post db1)
                    (filter (λ l, like_user_id l ≠ key) (blog_post_likes db1))
                    (blog_post_tags db1)
                    (blog_tag db1)
                    comments
                    (blog_tag_sequence db1))
      end
  end.

(** [user.delete()] *)
Definition delete (db : DB) (key : Z) : orm_error + DB :=
  delete_with Post_author_on_delete Comment_author_on_delete db key.

End User.

(** ** URLs of instances *)

Module Urls.

(** Reading an attribute that an instance does not have. *)
Inductive attribute_error : Type :=
| AttributeError (type_name attribute : string).

(** A value handed to [reverse]. *)
Inductive value : Type :=
| Int (n : Z)
| Str (s : string).

(** Reading [tag.name] for a name that is not a method or a manager of
    the class (none of those is called [slug]): the instance has the
    fields [id] (also [pk]) and [title], and [posts_count] once it has
    been annotated.  [Tag] declares no other field. *)
Definition Tag_getattr (self : Tag.t) (name : string)
    : attribute_error + option value :=
  if decide (name = "id" ∨ name = "pk") then inr (Int <$> Tag.pk self)
  else if decide (name = "title") then inr (Some (Str (Tag.title self)))
  else match Tag.posts_count self with
       | Some n =>
           if decide (name = "posts_count") then inr (Some (Int (Z.of_nat n)))
           else inl (AttributeError "Tag" name)
       | None => inl (AttributeError "Tag" name)
       end.

(** Unpacking a dictionary [d] into positional arguments, as the star in
    a call does, passes the keys of [d] in the order of insertion. *)
Definition star {V : Type} (d : list (string * V)) : list value :=
  Str <$> d.*1.

Section Reverse.

(** [reverse(viewname, args=args)] resolves against the URL patterns of
    the project, which are not part of this file.  It passes [args] on
    unpacked; the result is the URL, or nothing when no pattern
    matches. *)
Variable reverse_with_prefix : string → list value → option string.

Definition reverse {V : Type} (viewname : string) (args : list (string * V))
    : option string :=
  reverse_with_prefix viewname (star args).

(** [Post.get_absolute_url]:
    [reverse('post_detail', args={'slug': self.slug})] *)
Definition Post_get_absolute_url (self : Post.t) : option string :=
  reverse "post_detail" [("slug", Str (post_slug (Post.row self)))].

(** [Tag.get_absolute_url]:
    [reverse('tag_filter', args={'tag_title': self.slug})]; the
    dictionary is built, and [self.slug] read, before [reverse] is
    called. *)
Definition Tag_get_absolute_url (self : Tag.t)
    : attribute_error + option string :=
  match Tag_getattr self "slug" with
  | inl e => inl e
  | inr slug => inr (reverse "tag_filter" [("tag_title", slug)])
  end.

End Reverse.

End Urls.

(** ** [__str__] *)

Module Str.

(** [Model.objects.get(pk=key)]: the row of the key, or nothing when no
    row has it. *)
Definition get {R : Type} (pk : R → Z) (rows : list R) (key : Z) : option R :=
  head (filter (λ r, pk r = key) rows).

(** [Post.__str__] and [Tag.__str__] return the title. *)
Definition Post_str (self : Post.t) : string := post_title (Post.row self).
Definition Tag_str (self : Tag.t) : string := Tag.title self.

(** [Comment.__str__]:
    [f'{self.author.username} under {self.post.title}'].  [self.author]
    is the user that [select_related] has put on the instance, or else
    the user fetched by key; [self.post] is the post fetched by key.
    Without the row there is no string. *)
Definition Comment_str (db : DB) (self : Comment.t) : option string :=
  author ← match Comment.author self with
           | Some user => Some user
           | None => get user_id (auth_user db) (comment_author_id (Comment.row self))
           end;
  post ← get post_id (blog_post db) (comment_post_id (Comment.row self));
  Some (username author +:+ " under " +:+ post_title post).

End Str.

(** ** The blog with a post deleted behind a query set *)

Module Stale.

(** The sample blog after its first post has been deleted; the query set
    [Sample.evaluated] still holds the post, as the last of three. *)
Definition db_without_first : DB :=
  match Post.delete Sample.db (Post.mk Sample.first None None None None None) with
  | inr db' => db'
  | inl _ => Sample.db
  end.

End Stale.

(** Closed goals about the sample are settled by evaluation. *)
Ltac by_computation := apply (bool_decide_unpack _); vm_compute; exact I.
(** ** Facts about the relational operations *)

Lemma filter_all {A} (P : A → Prop) `{∀ x, Decision (P x)} (l : list A) :
  Forall P l → filter P l = l.
Proof.
  induction 1 as [|x l HP _ IH]; [done|]. by rewrite filter_cons_True, IH.
Qed.

Lemma filter_none {A} (P : A → Prop) `{∀ x, Decision (P x)} (l : list A) :
  Forall (λ x, ¬ P x) l → filter P l = [].
Proof.
  induction 1 as [|x l HP _ IH]; [done|]. by rewrite filter_cons_False.
Qed.

Lemma remove_dups_replicate_app {A} `{EqDecision A} (a : A) (n : nat) (l : list A) :
  a ∉ l → remove_dups (replicate (S n) a ++ l) = a :: remove_dups l.
Proof.
  intros Ha. induction n as [|n IH].
  - simpl. by destruct (decide_rel _ _ _).
  - change (replicate (S (S n)) a ++ l) with (a :: (replicate (S n) a ++ l)).
    cbn [remove_dups]. destruct (decide_rel _ _ _) as [|Hn]; [done|].
    destruct Hn. apply elem_of_app. left. left.
Qed.

Lemma filter_singleton_NoDup {A} `{EqDecision A} (l : list A) (a : A) :
  NoDup l → a ∈ l → filter (λ a', a' = a) l = [a].
Proof.
  induction 1 as [|x l Hx Hl IH]; [by intros ?%not_elem_of_nil|].
  intros [->|Ha]%elem_of_cons.
  - rewrite filter_cons_True by done. f_equal.
    apply filter_none, Forall_forall. by intros y Hy ->.
  - rewrite filter_cons_False; [by apply IH|]. by intros ->.
Qed.

Lemma remove_dups_same_length {A} `{EqDecision A} (l k : list A) :
  (∀ x, x ∈ l ↔ x ∈ k) → length (remove_dups l) = length (remove_dups k).
Proof.
  intros Hlk. apply Permutation_length, NoDup_Permutation.
  - apply NoDup_remove_dups.
  - apply NoDup_remove_dups.
  - intros x. by rewrite !elem_of_remove_dups.
Qed.

Section RelationalFacts.
Context {A B : Type} (on : A → B → bool).
Implicit Types (a : A) (la : list A) (lb : list B).

Lemma pair_some_fst a (bs : list B) :
  ((λ b, (a, Some b)) <$> bs).*1 = replicate (length bs) a.
Proof. induction bs as [|b bs IH]; csimpl; [done|by rewrite IH]. Qed.

Lemma pair_some_non_null {C} (f : B → C) a (bs : list B) :
  non_null (column f ((λ b, (a, Some b)) <$> bs).*2) = f <$> bs.
Proof.
  unfold non_null, column.
  induction bs as [|b bs IH]; csimpl; [done|by rewrite IH].
Qed.

Lemma null_extend_fst a (bs : list B) :
  ∃ n, (null_extend a bs).*1 = replicate (S n) a.
Proof.
  destruct bs as [|b bs].
  - by exists 0%nat.
  - exists (length bs). unfold null_extend. by rewrite pair_some_fst.
Qed.

Lemma null_extend_key a (bs : list B) (kv : A * option B) :
  kv ∈ null_extend a bs → kv.1 = a.
Proof.
  intros Hkv.
  assert (kv.1 ∈ (null_extend a bs).*1) as Hin by (by apply list_elem_of_fmap_2).
  destruct (null_extend_fst a bs) as [n Hn]. rewrite Hn in Hin.
  by apply elem_of_replicate in Hin as [-> _].
Qed.

(** The non-NULL partners in the rows of one left side are its matches. *)
Lemma null_extend_non_null {C} (f : B → C) a (bs : list B) :
  non_null (column f (null_extend a bs).*2) = f <$> bs.
Proof.
  destruct bs as [|b bs]; [done|]. apply pair_some_non_null.
Qed.

Lemma left_outer_join_keys la lb a :
  a ∈ (left_outer_join on la lb).*1 ↔ a ∈ la.
Proof.
  unfold left_outer_join. split.
  - intros [kv [-> Hkv]]%list_elem_of_fmap.
    apply list_elem_of_bind in Hkv as [a' [Hkv Ha']].
    by rewrite (null_extend_key _ _ _ Hkv).
  - intros Ha. destruct (null_extend_fst a (matching on lb a)) as [n Hn].
    apply list_elem_of_fmap.
    assert (a ∈ (null_extend a (matching on lb a)).*1) as Hin
      by (rewrite Hn; left).
    apply list_elem_of_fmap in Hin as [kv [-> Hkv]].
    exists kv. split; [done|]. apply list_elem_of_bind. eauto.
Qed.

(** The rows of a left outer join that carry the key [a]: the rows of each
    copy of [a] on the left. *)
Lemma left_outer_join_filter_key `{EqDecision A} la lb a :
  filter (λ kv, kv.1 = a) (left_outer_join on la lb)
  = filter (λ a', a' = a) la ≫= λ a', null_extend a' (matching on lb a').
Proof.
  unfold left_outer_join.
  induction la as [|a0 la IH]; [done|].
  rewrite bind_cons, filter_app, IH, filter_cons.
  destruct (decide (a0 = a)) as [->|Hne].
  - rewrite bind_cons. f_equal.
    apply filter_all, Forall_forall. intros kv. apply null_extend_key.
  - rewrite filter_none; [done|].
    apply Forall_forall. intros kv ->%null_extend_key. done.
Qed.

(** With distinct rows on the left, grouping a left outer join by the left
    row gives one group per left row, in the order of the left rows. *)
Lemma left_outer_join_distinct_keys `{EqDecision A} la lb :
  NoDup la → remove_dups (left_outer_join on la lb).*1 = la.
Proof.
  unfold left_outer_join. induction 1 as [|a la Ha _ IH]; [done|].
  rewrite bind_cons, fmap_app.
  destruct (null_extend_fst a (matching on lb a)) as [n ->].
  rewrite remove_dups_replicate_app, IH; [done|].
  by rewrite (left_outer_join_keys la lb a).
Qed.

Lemma group_by_left_outer_join `{EqDecision A} la lb :
  NoDup la →
  group_by (left_outer_join on la lb)
  = (λ a, (a, (null_extend a (matching on lb a)).*2)) <$> la.
Proof.
  intros Hla. unfold group_by.
  rewrite left_outer_join_distinct_keys by done.
  apply list_fmap_ext. intros i a Hi. f_equal.
  rewrite left_outer_join_filter_key.
  rewrite (filter_singleton_NoDup la a); [|done|by eapply list_elem_of_lookup_2].
  by rewrite bind_singleton.
Qed.

End RelationalFacts.

Lemma elem_of_group_by {K V} `{EqDecision K} (rows : list (K * V)) k vs :
  (k, vs) ∈ group_by rows ↔ k ∈ rows.*1 ∧ vs = (filter (λ kv, kv.1 = k) rows).*2.
Proof.
  unfold group_by. rewrite list_elem_of_fmap. split.
  - intros [k' [Heq Hk]]. simpl in Heq. injection Heq as -> ->.
    by rewrite elem_of_remove_dups in Hk.
  - intros [Hk ->]. exists k. by rewrite elem_of_remove_dups.
Qed.

(** ** Facts about [dict] *)

Section DictFacts.
Context {V : Type}.
Implicit Types (pairs : list (Z * V)) (d : gmap Z V).

Lemma fold_insert_not_in pairs d k :
  k ∉ pairs.*1 → fold_left Python.setitem pairs d !! k = d !! k.
Proof.
  revert d. induction pairs as [|[k0 v0] pairs IH]; intros d Hk; [done|].
  csimpl in *. apply not_elem_of_cons in Hk as [Hne Hk].
  rewrite IH by done. unfold Python.setitem. by rewrite lookup_insert_ne.
Qed.

Lemma fold_insert_in pairs d k :
  k ∈ pairs.*1 → is_Some (fold_left Python.setitem pairs d !! k).
Proof.
  revert d. induction pairs as [|[k0 v0] pairs IH]; intros d Hk; csimpl in *.
  - by apply elem_of_nil in Hk.
  - destruct (decide (k ∈ pairs.*1)) as [Hin|Hout]; [by apply IH|].
    apply elem_of_cons in Hk as [->|?]; [|done].
    rewrite fold_insert_not_in by done. unfold Python.setitem.
    rewrite lookup_insert_eq. by eexists.
Qed.

Lemma dict_lookup_None pairs k :
  Python.dict pairs !! k = None ↔ k ∉ pairs.*1.
Proof.
  unfold Python.dict. split.
  - intros Hnone Hin. apply (fold_insert_in _ ∅) in Hin as [v Hv].
    congruence.
  - intros Hk. rewrite <-(lookup_empty (M:=gmap Z) (A:=V) k).
    by apply (fold_insert_not_in pairs ∅ k).
Qed.

Lemma dict_lookup_Some pairs k v :
  NoDup pairs.*1 → (k, v) ∈ pairs → Python.dict pairs !! k = Some v.
Proof.
  unfold Python.dict. generalize (∅ : gmap Z V).
  induction pairs as [|[k0 v0] pairs IH]; intros d Hnd Hin; csimpl in *.
  - by apply elem_of_nil in Hin.
  - apply NoDup_cons in Hnd as [Hk0 Hnd].
    apply elem_of_cons in Hin as [[= -> ->]|Hin]; [|by apply IH].
    rewrite fold_insert_not_in by done. apply lookup_insert_eq.
Qed.

End DictFacts.

(** ** Facts about ORDER BY *)

Section OrderFacts.
Context {A : Type} (key : A → Z).

Lemma order_by_desc_perm (l : list A) : order_by_desc key l ≡ₚ l.
Proof. apply merge_sort_Permutation. Qed.

Lemma order_by_desc_sorted (l : list A) :
  StronglySorted (desc key) (order_by_desc key l).
Proof. apply StronglySorted_merge_sort; apply _. Qed.

Lemma order_by_asc_perm (l : list A) : order_by_asc key l ≡ₚ l.
Proof. apply merge_sort_Permutation. Qed.

End OrderFacts.

Lemma StronglySorted_strengthen {A} (R R' : relation A) (P : A → Prop) (l : list A) :
  (∀ a b, P a → P b → R a b → R' a b) →
  Forall P l → StronglySorted R l → StronglySorted R' l.
Proof.
  intros HR HP Hs. induction Hs as [|a l Hs IH Ha]; [constructor|].
  apply Forall_cons in HP as [Pa HP]. constructor; [by apply IH|].
  rewrite Forall_forall in Ha, HP |- *. intros b Hb. apply HR; auto.
Qed.

Lemma NoDup_fmap_filter {A B} (f : A → B) (P : A → Prop) `{∀ x, Decision (P x)}
    (l : list A) :
  NoDup (f <$> l) → NoDup (f <$> filter P l).
Proof.
  induction l as [|x l IH]; [done|]. csimpl. intros [Hx Hl]%NoDup_cons.
  rewrite filter_cons. destruct (decide (P x)); [|by apply IH].
  csimpl. apply NoDup_cons. split; [|by apply IH].
  intros [y [Hxy [_ Hy]%list_elem_of_filter]]%list_elem_of_fmap.
  apply Hx. apply list_elem_of_fmap. eauto.
Qed.

(** ** Tags *)

Section TagFacts.
Variable db : DB.
Implicit Types (self : TagQuerySet.t) (r : TagRow).

Lemma tag_rows_NoDup self : pk_unique_tag db → NoDup (TagQuerySet.rows db self).
Proof.
  intros Hpk. apply NoDup_filter. by apply (NoDup_fmap_1 tag_id).
Qed.

(** [COUNT(blog_post_tags.post_id)] in the group of a tag is the number of
    rows of [blog_post_tags] with that tag. *)
Lemma tag_groups self :
  pk_unique_tag db →
  TagQuerySet.instance_of_group <$> group_by (TagQuerySet.join_posts db self)
  = (λ r, Tag.mk (Some (tag_id r)) (tag_title r)
            (Some (length (filter (λ pt, pt_tag_id pt = tag_id r) (blog_post_tags db)))))
      <$> TagQuerySet.rows db self.
Proof.
  intros Hpk. unfold TagQuerySet.join_posts.
  rewrite group_by_left_outer_join by by apply tag_rows_NoDup.
  rewrite <-list_fmap_compose. apply list_fmap_ext. intros _ r _.
  unfold TagQuerySet.instance_of_group, COUNT. simpl.
  rewrite null_extend_non_null, length_fmap. do 3 f_equal.
  unfold matching. apply list_filter_iff. intros pt.
  by rewrite bool_decide_spec.
Qed.

(** Under the constraints of the schema the rows of [blog_post_tags] with
    a tag are as many as the posts related to the tag. *)
Lemma tag_rows_are_posts (tag_key : Z) :
  pk_unique_post db → unique_post_tags db → fk_post_tags_post db →
  length (filter (λ pt, pt_tag_id pt = tag_key) (blog_post_tags db))
  = number_of_posts db tag_key.
Proof.
  intros Hpk Huniq Hfk. unfold number_of_posts.
  rewrite <-(length_fmap pt_post_id), <-(length_fmap post_id (filter _ (blog_post db))).
  apply Permutation_length, NoDup_Permutation.
  - apply NoDup_fmap_2_strong; [|by apply NoDup_filter].
    intros [p1 t1] [p2 t2] [Ht1 _]%list_elem_of_filter [Ht2 _]%list_elem_of_filter.
    simpl in *. congruence.
  - by apply NoDup_fmap_filter.
  - intros k. rewrite !list_elem_of_fmap. split.
    + intros [[p t] [-> [Ht Hin]%list_elem_of_filter]]. simpl in *. subst t.
      pose proof (proj1 (Forall_forall _ _) Hfk _ Hin) as Hex.
      apply list_elem_of_fmap in Hex as [p' [Hp' Hin']]. simpl in Hp'.
      exists p'. split; [done|]. apply list_elem_of_filter. by rewrite <-Hp'.
    + intros [p [-> [Hrel Hin]%list_elem_of_filter]].
      exists (mkPostTagRow (post_id p) tag_key). split; [done|].
      by apply list_elem_of_filter.
Qed.

Lemma tag_popular_select self :
  TagQuerySet.select db (TagQuerySet.popular self)
  = order_by_desc TagQuerySet.posts_count_key
      (TagQuerySet.instance_of_group <$> group_by (TagQuerySet.join_posts db self)).
Proof. reflexivity. Qed.

(** Whatever its ordering and annotation, a tag query set yields the tags
    its WHERE clause keeps. *)
Lemma tag_select_rows self :
  pk_unique_tag db →
  Tag.without_annotation <$> TagQuerySet.select db self
  ≡ₚ Tag.from_db <$> TagQuerySet.rows db self.
Proof.
  intros Hpk. unfold TagQuerySet.select.
  set (instances := if TagQuerySet.posts_count self
                    then TagQuerySet.instance_of_group <$> _ else _).
  assert (Tag.without_annotation <$> instances
          = Tag.from_db <$> TagQuerySet.rows db self) as <-.
  { subst instances. destruct (TagQuerySet.posts_count self).
    - rewrite tag_groups by done. rewrite <-list_fmap_compose.
      by apply list_fmap_ext.
    - rewrite <-list_fmap_compose. by apply list_fmap_ext. }
  apply fmap_Permutation.
  destruct (TagQuerySet.order self), (TagQuerySet.posts_count self);
    done || apply merge_sort_Permutation.
Qed.

(** C3: [TagQuerySet.popular] returns the tags of the query set, each
    with [posts_count] equal to the number of posts related to the tag,
    and [posts_count] never grows from one tag of the result to a later
    one.  The database is taken to keep the constraints of the schema:
    unique keys of tags and posts, no pair twice in [blog_post_tags], and
    the posts named there exist. *)
Theorem tag_popular_counts_posts_in_descending_order self :
  pk_unique_tag db → pk_unique_post db → unique_post_tags db → fk_post_tags_post db →
  let tags := TagQuerySet.select db (TagQuerySet.popular self) in
  (∀ tag, tag ∈ tags ↔
     ∃ r, r ∈ TagQuerySet.rows db self ∧
          tag = Tag.mk (Some (tag_id r)) (tag_title r)
                  (Some (number_of_posts db (tag_id r)))) ∧
  StronglySorted
    (λ a b, ∃ m n, Tag.posts_count a = Some m ∧ Tag.posts_count b = Some n ∧
                   (n ≤ m)%nat)
    tags.
Proof.
  intros Hpk Hpost Huniq Hfk tags.
  assert (∀ tag, tag ∈ tags ↔
     ∃ r, r ∈ TagQuerySet.rows db self ∧
          tag = Tag.mk (Some (tag_id r)) (tag_title r)
                  (Some (number_of_posts db (tag_id r)))) as Hmem.
  { intros tag. subst tags. rewrite tag_popular_select, order_by_desc_perm.
    rewrite tag_groups by done. rewrite list_elem_of_fmap.
    split; intros [r [Hr Hin]]; exists r.
    - by rewrite Hr, tag_rows_are_posts.
    - by rewrite Hin, tag_rows_are_posts. }
  split; [done|].
  eapply (StronglySorted_strengthen (desc TagQuerySet.posts_count_key) _
            (λ tag, is_Some (Tag.posts_count tag))).
  - intros a b [m Hm] [n Hn]. unfold desc, TagQuerySet.posts_count_key.
    rewrite Hm, Hn. simpl. intros Hle. exists m, n. repeat split; [done..|lia].
  - apply Forall_forall. intros tag [r [_ ->]]%Hmem. by eexists.
  - apply order_by_desc_sorted.
Qed.

End TagFacts.

Lemma inner_join_NoDup {A B} (on : A → B → bool) (la : list A) (lb : list B) :
  NoDup la → NoDup lb → NoDup (inner_join on la lb).
Proof.
  intros Hla Hlb. unfold inner_join. apply NoDup_bind; [| |done].
  - intros a1 a2 [a b] _ _ [b1 [[= -> _] _]]%list_elem_of_fmap
      [b2 [[= -> _] _]]%list_elem_of_fmap. done.
  - intros a _. apply NoDup_fmap_2; [by intros b1 b2 [= ->]|].
    by apply NoDup_filter.
Qed.

Lemma StronglySorted_of_fmap {A B} (f : A → B) (R1 : relation A) (R2 : relation B)
    (l : list A) :
  (∀ x y, R2 (f x) (f y) → R1 x y) →
  StronglySorted R2 (f <$> l) → StronglySorted R1 l.
Proof.
  intros HR. induction l as [|x l IH]; [constructor|]. csimpl.
  intros [Hx Hs]%StronglySorted_cons. constructor; [by apply IH|].
  rewrite Forall_fmap in Hx. eapply Forall_impl; [done|]. simpl. auto.
Qed.

(** ** Posts *)

Section PostFacts.
Variable db : DB.
Implicit Types (self : PostQuerySet.t).

Lemma post_from_clause_NoDup self :
  pk_unique_post db → pk_unique_user db → NoDup (PostQuerySet.from_clause db self).
Proof.
  intros Hpost Huser.
  assert (NoDup (PostQuerySet.rows db self)) as Hrows
    by (apply NoDup_filter; by apply (NoDup_fmap_1 post_id)).
  unfold PostQuerySet.from_clause. destruct (PostQuerySet.select_related_author self).
  - apply NoDup_fmap_2; [by intros [p1 u1] [p2 u2] [= -> ->]|].
    apply inner_join_NoDup; [done|]. by apply (NoDup_fmap_1 user_id).
  - apply NoDup_fmap_2; [by intros p1 p2 [= ->]|done].
Qed.

(** With distinct rows in the FROM clause, [COUNT(blog_post_likes.user_id)]
    in the group of a post is the number of its likes. *)
Lemma post_groups self :
  NoDup (PostQuerySet.from_clause db self) →
  PostQuerySet.instance_of_group false <$> group_by (PostQuerySet.join_likes db self)
  = (λ pu, Post.mk pu.1 pu.2 None None (Some (number_of_likes db (post_id pu.1))) None)
      <$> PostQuerySet.from_clause db self.
Proof.
  intros Hnd. unfold PostQuerySet.join_likes.
  rewrite group_by_left_outer_join by done.
  rewrite <-list_fmap_compose. apply list_fmap_ext. intros _ pu _.
  unfold PostQuerySet.instance_of_group, PostQuerySet.count_likes, COUNT. simpl.
  rewrite null_extend_non_null, length_fmap. do 2 f_equal.
  unfold number_of_likes, matching. f_equal. apply list_filter_iff. intros l.
  by rewrite bool_decide_spec.
Qed.

(** [COUNT(DISTINCT blog_post_likes.user_id)] in the group of a post is
    the number of users who like it, whether or not the FROM clause
    repeats rows. *)
Lemma post_group_distinct self k likes :
  (k, likes) ∈ group_by (PostQuerySet.join_likes db self) →
  PostQuerySet.count_likes true likes = number_of_likers db (post_id k.1).
Proof.
  intros [Hk ->]%elem_of_group_by.
  unfold PostQuerySet.join_likes in *. apply left_outer_join_keys in Hk.
  rewrite left_outer_join_filter_key.
  unfold PostQuerySet.count_likes, COUNT_DISTINCT, number_of_likers.
  apply remove_dups_same_length. intros user.
  set (on := λ (pu : PostRow * option UserRow) l, bool_decide (like_post_id l = post_id pu.1)).
  assert (like_user_id <$> filter (λ l, like_post_id l = post_id k.1) (blog_post_likes db)
          = like_user_id <$> matching on (blog_post_likes db) k) as ->.
  { f_equal. apply list_filter_iff. intros l. subst on. simpl.
    by rewrite bool_decide_spec. }
  revert Hk. generalize (PostQuerySet.from_clause db self). intros la Hk.
  induction la as [|a la IH]; [by apply elem_of_nil in Hk|].
  rewrite filter_cons. destruct (decide (a = k)) as [->|Hne].
  - rewrite bind_cons, fmap_app. unfold column, non_null in *.
    rewrite fmap_app, omap_app, elem_of_app.
    fold (column like_user_id (null_extend k (matching on (blog_post_likes db) k)).*2).
    fold (non_null (column like_user_id (null_extend k (matching on (blog_post_likes db) k)).*2)).
    rewrite null_extend_non_null.
    destruct (decide (k ∈ la)) as [Hin|Hout]; [rewrite (IH Hin); tauto|].
    rewrite (filter_none _ la); [|by apply Forall_forall; intros y Hy ->].
    rewrite elem_of_nil. tauto.
  - apply IH. by apply elem_of_cons in Hk as [->|?].
Qed.

End PostFacts.

Lemma fmap_via {A B C} (f : A → B) (g : B → C) (h : A → C) (l l' : list A) :
  (∀ x, h x = g (f x)) → f <$> l' = f <$> l → h <$> l' = h <$> l.
Proof.
  intros Hh Heq.
  transitivity (g <$> (f <$> l')).
  - rewrite <-list_fmap_compose. apply list_fmap_ext. intros _ x _. apply Hh.
  - rewrite Heq, <-list_fmap_compose. apply list_fmap_ext. intros _ x _.
    symmetry. apply Hh.
Qed.

(** ** Prefetching *)

Section PrefetchFacts.
Variable db : DB.
Implicit Types (instances : list Post.t) (lookups : list PostQuerySet.prefetch).

Lemma prefetch_one_level_own lookup instances :
  Post.own_attributes <$> (PostQuerySet.prefetch_one_level db lookup instances).1
  = Post.own_attributes <$> instances.
Proof.
  destruct lookup; simpl; rewrite <-list_fmap_compose; by apply list_fmap_ext.
Qed.

Lemma prefetch_one_level_batch lookup instances :
  is_batch_fetch (PostQuerySet.prefetch_one_level db lookup instances).2.
Proof. by destruct lookup. Qed.

(** The loop over the lookups, from any state it can be in. *)
Lemma prefetch_loop lookups (acc : list Post.t * list statement) :
  let r := foldl (λ acc lookup,
               let r := PostQuerySet.prefetch_one_level db lookup acc.1 in
               (r.1, acc.2 ++ [r.2])) acc lookups in
  Post.own_attributes <$> r.1 = Post.own_attributes <$> acc.1 ∧
  ∃ sent, r.2 = acc.2 ++ sent ∧ length sent = length lookups ∧
          Forall is_batch_fetch sent.
Proof.
  revert acc. induction lookups as [|lookup lookups IH]; intros acc; simpl.
  - split; [done|]. exists []. by rewrite app_nil_r.
  - destruct (IH ((PostQuerySet.prefetch_one_level db lookup acc.1).1,
                  acc.2 ++ [(PostQuerySet.prefetch_one_level db lookup acc.1).2]))
      as [Hown [sent [Hsent [Hlen Hbatch]]]].
    simpl in *. split.
    + by rewrite Hown, prefetch_one_level_own.
    + exists ((PostQuerySet.prefetch_one_level db lookup acc.1).2 :: sent).
      rewrite Hsent, <-app_assoc. simpl. split_and!; [done|by rewrite Hlen|].
      constructor; [apply prefetch_one_level_batch|done].
Qed.

Lemma prefetch_related_objects_own instances lookups :
  Post.own_attributes <$> (PostQuerySet.prefetch_related_objects db instances lookups).1
  = Post.own_attributes <$> instances.
Proof.
  unfold PostQuerySet.prefetch_related_objects.
  destruct instances as [|post rest]; [done|].
  apply (prefetch_loop lookups (post :: rest, [])).
Qed.

Lemma prefetch_related_objects_statements instances lookups :
  let sent := (PostQuerySet.prefetch_related_objects db instances lookups).2 in
  (length sent ≤ length lookups)%nat ∧ Forall is_batch_fetch sent.
Proof.
  unfold PostQuerySet.prefetch_related_objects.
  destruct instances as [|post rest]; [simpl; split; [lia|constructor]|].
  destruct (prefetch_loop lookups (post :: rest, [])) as [_ [sent [Hs [Hl Hb]]]].
  cbv zeta in *. cbn [snd] in Hs. rewrite Hs. simpl. by rewrite Hl.
Qed.

Lemma instances_of_fresh (self : PostQuerySet.t) :
  PostQuerySet.result_cache self = None →
  PostQuerySet.instances db self
  = (PostQuerySet.prefetch_related_objects db (PostQuerySet.select db self)
       (PostQuerySet.prefetch_related_lookups self)).1.
Proof.
  intros Hnone. unfold PostQuerySet.instances, PostQuerySet.fetch_all.
  by rewrite Hnone.
Qed.

Lemma own_attributes_row (l l' : list Post.t) :
  Post.own_attributes <$> l' = Post.own_attributes <$> l →
  Post.row <$> l' = Post.row <$> l.
Proof. by apply (fmap_via Post.own_attributes (λ a, a.1.1.1)). Qed.

Lemma own_attributes_likes_count (l l' : list Post.t) :
  Post.own_attributes <$> l' = Post.own_attributes <$> l →
  Post.likes_count <$> l' = Post.likes_count <$> l.
Proof. by apply (fmap_via Post.own_attributes (λ a, a.1.2)). Qed.

End PrefetchFacts.

Section PopularPosts.
Variable db : DB.
Implicit Types (self : PostQuerySet.t).

Lemma Forall_own_attributes (P : PostRow * option UserRow * option nat * option nat → Prop)
    (l l' : list Post.t) :
  Post.own_attributes <$> l' = Post.own_attributes <$> l →
  Forall (λ post, P (Post.own_attributes post)) l →
  Forall (λ post, P (Post.own_attributes post)) l'.
Proof.
  intros Heq Hl.
  apply (Forall_fmap Post.own_attributes P l').
  rewrite Heq. by apply Forall_fmap.
Qed.

(** Whatever its ordering and annotation, the query of a post query set
    yields the rows of its FROM clause. *)
Lemma post_select_rows self :
  NoDup (PostQuerySet.from_clause db self) →
  Post.row <$> PostQuerySet.select db self ≡ₚ (PostQuerySet.from_clause db self).*1.
Proof.
  intros Hnd. unfold PostQuerySet.select.
  set (instances := match PostQuerySet.likes_count self with
                    | Some distinct => PostQuerySet.instance_of_group distinct <$> _
                    | None => _
                    end).
  assert (Post.row <$> instances = (PostQuerySet.from_clause db self).*1) as <-.
  { subst instances. destruct (PostQuerySet.likes_count self) as [distinct|].
    - unfold PostQuerySet.join_likes. rewrite group_by_left_outer_join by done.
      rewrite <-!list_fmap_compose. by apply list_fmap_ext.
    - rewrite <-list_fmap_compose. by apply list_fmap_ext. }
  apply fmap_Permutation.
  destruct (PostQuerySet.order self), (PostQuerySet.likes_count self);
    done || apply merge_sort_Permutation.
Qed.

Lemma post_popular_select self :
  PostQuerySet.select db (PostQuerySet.popular self)
  = order_by_desc PostQuerySet.likes_count_key
      (PostQuerySet.instance_of_group false <$>
         group_by (PostQuerySet.join_likes db self)).
Proof. reflexivity. Qed.

End PopularPosts.

(** C10: both [popular] methods only annotate and reorder.  Over a
    database with unique keys, the tags returned by [TagQuerySet.popular]
    are, annotation apart, a permutation of the tags of the query set it
    was called on, and the rows of the posts returned by
    [PostQuerySet.popular] are a permutation of the rows of the posts of
    the query set it was called on. *)
Theorem popular_keeps_the_elements (db : DB) (tags : TagQuerySet.t)
    (posts : PostQuerySet.t) :
  pk_unique_tag db → pk_unique_post db → pk_unique_user db →
  Tag.without_annotation <$> TagQuerySet.select db (TagQuerySet.popular tags)
    ≡ₚ Tag.without_annotation <$> TagQuerySet.select db tags ∧
  Post.row <$> PostQuerySet.instances db (PostQuerySet.popular posts)
    ≡ₚ Post.row <$> PostQuerySet.select db posts.
Proof.
  intros Htag Hpost Huser. split.
  - by rewrite !tag_select_rows.
  - rewrite instances_of_fresh by done.
    rewrite (own_attributes_row _ _ (prefetch_related_objects_own db _ _)).
    rewrite !post_select_rows by by apply post_from_clause_NoDup.
    done.
Qed.

(** C8: evaluating [base_post_queryset] sends the query of the posts
    once, and after it only batch fetches of the prefetches, at most two
    more than the lookups the query set already had: a bound that does
    not depend on the database, so not on the number of posts. *)
Theorem base_post_queryset_sends_one_query_and_a_bounded_batch (db : DB)
    (self : PostQuerySet.t) :
  ∃ secondary,
    (PostQuerySet.fetch_all db (PostQuerySet.base_post_queryset self)).2
      = SELECT_blog_post :: secondary ∧
    (length secondary ≤ length (PostQuerySet.prefetch_related_lookups self) + 2)%nat ∧
    Forall is_batch_fetch secondary.
Proof.
  unfold PostQuerySet.fetch_all. simpl.
  eexists. split; [done|].
  match goal with
  | |- context [PostQuerySet.prefetch_related_objects db ?l ?ls] =>
      destruct (prefetch_related_objects_statements db l ls) as [Hlen Hbatch]
  end.
  split; [|exact Hbatch].
  etransitivity; [exact Hlen|]. rewrite length_app. simpl. lia.
Qed.

Section BasePostQuerySet.
Variable db : DB.
Implicit Types (self : PostQuerySet.t).

Lemma inner_join_elem {A B} (on : A → B → bool) (la : list A) (lb : list B) a b :
  (a, b) ∈ inner_join on la lb ↔ a ∈ la ∧ b ∈ lb ∧ on a b.
Proof.
  unfold inner_join, matching. rewrite list_elem_of_bind. split.
  - intros [a' [[b' [[= -> ->] [Hon Hb]%list_elem_of_filter]]%list_elem_of_fmap Ha]].
    done.
  - intros (Ha & Hb & Hon). exists a. split; [|done].
    apply list_elem_of_fmap. exists b. split; [done|]. by apply list_elem_of_filter.
Qed.

(** What the query of [base_post_queryset] puts on each instance. *)
Lemma base_post_queryset_select self :
  Forall (λ post,
      Post.likes_count post = Some (number_of_likers db (Post.id post)) ∧
      ∃ u, Post.author post = Some u ∧ u ∈ auth_user db ∧
           user_id u = post_author_id (Post.row post))
    (PostQuerySet.select db (PostQuerySet.base_post_queryset self)).
Proof.
  set (q := PostQuerySet.base_post_queryset self).
  assert (Forall (λ post,
      Post.likes_count post = Some (number_of_likers db (Post.id post)) ∧
      ∃ u, Post.author post = Some u ∧ u ∈ auth_user db ∧
           user_id u = post_author_id (Post.row post))
    (PostQuerySet.instance_of_group true <$> group_by (PostQuerySet.join_likes db q)))
    as Hgroups.
  { apply Forall_fmap, Forall_forall. intros [k likes] Hg. split.
    - unfold Post.id. simpl. f_equal. by eapply post_group_distinct.
    - apply elem_of_group_by in Hg as [Hk _].
      apply left_outer_join_keys in Hk. unfold PostQuerySet.from_clause in Hk.
      simpl in Hk. apply list_elem_of_fmap in Hk as [[p u] [-> Hpu]].
      apply inner_join_elem in Hpu as (_ & Hu & Hon).
      apply bool_decide_spec in Hon. simpl. eauto. }
  unfold PostQuerySet.select.
  change (PostQuerySet.likes_count q) with (Some true).
  destruct (PostQuerySet.order q); unfold order_by_desc;
    done || by rewrite merge_sort_Permutation.
Qed.

Lemma prefetched_comments_have_author post_ids :
  Forall (λ c, ∃ u, Comment.author c = Some u ∧ u ∈ auth_user db ∧
                    user_id u = comment_author_id (Comment.row c))
    (CommentQuerySet.select_for_posts db
       (CommentQuerySet.select_related CommentQuerySet.objects) post_ids).
Proof.
  unfold CommentQuerySet.select_for_posts. simpl. rewrite order_by_asc_perm.
  apply Forall_fmap, Forall_forall. intros [c u] (_ & Hu & Hon)%inner_join_elem.
  apply bool_decide_spec in Hon. simpl. eauto.
Qed.

End BasePostQuerySet.

(** ** The backfill of comment counts *)

Section Backfill.
Variable db : DB.
Implicit Types (self : PostQuerySet.t) (ids : list Z) (posts : list Post.t).

(** The keys in the result of the aggregation: the keys asked for that
    are keys of [blog_post]. *)
Lemma aggregated_keys ids k :
  k ∈ (PostQuerySet.values_list_id_comments_count
         (PostQuerySet.posts_with_comments db ids)).*1
  ↔ k ∈ ids ∧ k ∈ post_id <$> blog_post db.
Proof.
  unfold PostQuerySet.values_list_id_comments_count, PostQuerySet.posts_with_comments.
  rewrite !list_elem_of_fmap. split.
  - intros [[k' n] [-> [[p cs] [[= -> _] Hg]]%list_elem_of_fmap]].
    apply elem_of_group_by in Hg as [Hp _].
    apply left_outer_join_keys, list_elem_of_filter in Hp as [Hid Hp]. eauto.
  - intros [Hid [p [-> Hp]]].
    eexists (post_id p, _). split; [done|]. apply list_elem_of_fmap.
    eexists (p, _). split; [done|]. apply elem_of_group_by. split; [|done].
    apply left_outer_join_keys. by apply list_elem_of_filter.
Qed.

(** With unique keys the aggregation has one pair per post asked for,
    holding the number of its comments. *)
Lemma aggregated_pairs ids :
  pk_unique_post db →
  PostQuerySet.values_list_id_comments_count (PostQuerySet.posts_with_comments db ids)
  = (λ p, (post_id p, number_of_comments db (post_id p)))
      <$> filter (λ p, post_id p ∈ ids) (blog_post db).
Proof.
  intros Hpk.
  unfold PostQuerySet.values_list_id_comments_count, PostQuerySet.posts_with_comments.
  rewrite group_by_left_outer_join
    by (apply NoDup_filter; by apply (NoDup_fmap_1 post_id)).
  rewrite <-list_fmap_compose. apply list_fmap_ext. intros _ p _. simpl.
  unfold COUNT. rewrite null_extend_non_null, length_fmap. f_equal.
  unfold number_of_comments, matching. f_equal. apply list_filter_iff. intros c.
  by rewrite bool_decide_spec.
Qed.

Lemma count_for_id_lookup ids k :
  pk_unique_post db → k ∈ ids → k ∈ post_id <$> blog_post db →
  Python.dict (PostQuerySet.values_list_id_comments_count
                 (PostQuerySet.posts_with_comments db ids)) !! k
  = Some (number_of_comments db k).
Proof.
  intros Hpk Hid [p [-> Hp]]%list_elem_of_fmap.
  rewrite aggregated_pairs by done. apply dict_lookup_Some.
  - rewrite <-list_fmap_compose. by apply NoDup_fmap_filter.
  - apply list_elem_of_fmap. exists p. split; [done|]. by apply list_elem_of_filter.
Qed.

(** *** The loop *)

Lemma assign_frame (d : gmap Z nat) posts :
  Forall2 same_but_comments_count posts (PostQuerySet.assign_comments_count d posts).1.
Proof.
  induction posts as [|post rest IH]; simpl; [constructor|].
  unfold Python.getitem. destruct (d !! Post.id post) as [n|]; simpl.
  - constructor; [done|exact IH].
  - apply Forall2_same_length_lookup_2; [done|]. intros i p p' Hp Hp'.
    rewrite Hp in Hp'. by injection Hp' as ->.
Qed.

Lemma assign_raises (d : gmap Z nat) posts :
  (∃ key, (PostQuerySet.assign_comments_count d posts).2 = Some (Python.KeyError key))
  ↔ Exists (λ post, d !! Post.id post = None) posts.
Proof.
  induction posts as [|post rest IH]; simpl.
  - split; [by intros [? ?]|by intros ?%Exists_nil].
  - unfold Python.getitem. rewrite Exists_cons.
    destruct (d !! Post.id post) as [n|]; simpl.
    + rewrite IH. split; [by right|]. by intros [?|?].
    + split; [by left|]. by eexists.
Qed.

Lemma assign_succeeds (d : gmap Z nat) posts :
  (PostQuerySet.assign_comments_count d posts).2 = None
  ↔ Forall (λ post, is_Some (d !! Post.id post)) posts.
Proof.
  induction posts as [|post rest IH]; simpl; [done|].
  unfold Python.getitem. rewrite Forall_cons.
  destruct (d !! Post.id post) as [n|]; simpl.
  - rewrite IH. split; [by split|by intros [_ ?]].
  - split; [done|]. by intros [[? ?] _].
Qed.

Lemma assign_values (d : gmap Z nat) posts :
  (PostQuerySet.assign_comments_count d posts).2 = None →
  Forall2 (λ post post', Post.comments_count post' = d !! Post.id post)
    posts (PostQuerySet.assign_comments_count d posts).1.
Proof.
  induction posts as [|post rest IH]; simpl; [constructor|].
  unfold Python.getitem. destruct (d !! Post.id post) as [n|] eqn:Hn; simpl; [|done].
  intros Hrest. constructor; [done|by apply IH].
Qed.

(** *** The method *)

(** The call in terms of its three steps: the instances of the query set,
    the dictionary built from the aggregation, and the loop. *)
Lemma fetch_with_comments_count_steps self :
  let posts := PostQuerySet.instances db self in
  let count_for_id :=
    Python.dict (PostQuerySet.values_list_id_comments_count
                   (PostQuerySet.posts_with_comments db (Post.id <$> posts))) in
  let r := PostQuerySet.assign_comments_count count_for_id posts in
  let o := PostQuerySet.fetch_with_comments_count db self in
  PostQuerySet.result_cache (PostQuerySet.self_after o) = Some r.1 ∧
  same_query self (PostQuerySet.self_after o) ∧
  PostQuerySet.result o
  = match r.2 with
    | Some e => inl e
    | None => inr (PostQuerySet.self_after o)
    end.
Proof.
  unfold PostQuerySet.instances, PostQuerySet.fetch_with_comments_count,
    PostQuerySet.fetch_all.
  destruct (PostQuerySet.result_cache self) as [cached|] eqn:Hcache; simpl.
  - rewrite Hcache. simpl.
    destruct (PostQuerySet.assign_comments_count _ cached) as [posts' raised].
    simpl. by repeat split.
  - destruct (PostQuerySet.assign_comments_count _ _) as [posts' raised].
    simpl. by repeat split.
Qed.

(** A query set that has not been evaluated yields rows of [blog_post]. *)
Lemma fresh_instances_are_stored self :
  PostQuerySet.result_cache self = None →
  Forall (λ post, Post.row post ∈ blog_post db) (PostQuerySet.instances db self).
Proof.
  intros Hfresh. rewrite instances_of_fresh by done.
  apply (Forall_own_attributes (λ a, a.1.1.1 ∈ blog_post db) _ _
           (prefetch_related_objects_own db _ _)).
  assert (∀ pu, pu ∈ PostQuerySet.from_clause db self → pu.1 ∈ blog_post db) as Hfrom.
  { unfold PostQuerySet.from_clause, PostQuerySet.rows.
    destruct (PostQuerySet.select_related_author self).
    - intros pu [[p u] [-> (Hp & _)%inner_join_elem]]%list_elem_of_fmap.
      by apply list_elem_of_filter in Hp as [_ Hp].
    - intros pu [p [-> Hp]]%list_elem_of_fmap.
      by apply list_elem_of_filter in Hp as [_ Hp]. }
  unfold PostQuerySet.select.
  set (instances := match PostQuerySet.likes_count self with
                    | Some distinct => PostQuerySet.instance_of_group distinct <$> _
                    | None => _
                    end).
  assert (Forall (λ post, Post.row post ∈ blog_post db) instances) as Hinst.
  { subst instances. destruct (PostQuerySet.likes_count self) as [distinct|].
    - apply Forall_fmap, Forall_forall. intros [k likes] [Hk _]%elem_of_group_by.
      apply left_outer_join_keys in Hk. by apply Hfrom.
    - apply Forall_fmap, Forall_forall. intros pu Hpu. by apply Hfrom. }
  destruct (PostQuerySet.order self), (PostQuerySet.likes_count self);
    unfold order_by_desc; done || by rewrite merge_sort_Permutation.
Qed.

(** C1, amended: when the posts of the collection are all rows of
    [blog_post] at the time of the call, which is so whenever the call
    itself evaluates the query set, and keys of posts are unique,
    [fetch_with_comments_count] returns the query set it was called on
    and every post of it has received [comments_count] equal to the
    number of comments whose post it is, zero included. *)
Theorem fetch_with_comments_count_counts_the_comments self :
  pk_unique_post db →
  PostQuerySet.result_cache self = None ∨
  Forall (λ post, Post.id post ∈ post_id <$> blog_post db)
    (PostQuerySet.instances db self) →
  let o := PostQuerySet.fetch_with_comments_count db self in
  PostQuerySet.result o = inr (PostQuerySet.self_after o) ∧
  ∃ posts',
    PostQuerySet.result_cache (PostQuerySet.self_after o) = Some posts' ∧
    Forall2 (λ post post',
        Post.row post' = Post.row post ∧
        Post.comments_count post' = Some (number_of_comments db (Post.id post)))
      (PostQuerySet.instances db self) posts'.
Proof.
  intros Hpk Hcases o.
  assert (Forall (λ post, Post.id post ∈ post_id <$> blog_post db)
            (PostQuerySet.instances db self)) as Hstored.
  { destruct Hcases as [Hfresh|?]; [|done].
    eapply Forall_impl; [by apply fresh_instances_are_stored|].
    intros post Hrow. by apply (list_elem_of_fmap_2 post_id). }
  clear Hcases.
  destruct (fetch_with_comments_count_steps self) as (Hcache & _ & Hresult).
  fold o in Hcache, Hresult.
  set (posts := PostQuerySet.instances db self) in *.
  set (count_for_id := Python.dict _) in *.
  assert (Forall (λ post, count_for_id !! Post.id post
                          = Some (number_of_comments db (Post.id post))) posts)
    as Hlookup.
  { apply Forall_forall. intros post Hin. apply count_for_id_lookup; [done| |].
    - by apply list_elem_of_fmap_2.
    - by apply (proj1 (Forall_forall _ _) Hstored). }
  assert ((PostQuerySet.assign_comments_count count_for_id posts).2 = None) as Hnone.
  { apply assign_succeeds. eapply Forall_impl; [exact Hlookup|].
    simpl. intros post ->. by eexists. }
  rewrite Hnone in Hresult. split; [done|].
  eexists. split; [exact Hcache|].
  pose proof (assign_frame count_for_id posts) as Hframe.
  pose proof (assign_values count_for_id posts Hnone) as Hvalues.
  apply Forall2_same_length_lookup_2; [by eapply Forall2_length|].
  intros i post post' Hpost Hpost'.
  destruct (Forall2_lookup_lr _ _ _ _ _ _ Hframe Hpost Hpost') as [Hrow _].
  pose proof (Forall2_lookup_lr _ _ _ _ _ _ Hvalues Hpost Hpost') as Hcount.
  simpl in Hcount. split; [done|]. rewrite Hcount.
  apply (proj1 (Forall_forall _ _) Hlookup). by eapply list_elem_of_lookup_2.
Qed.

(** C2: [fetch_with_comments_count] raises [KeyError] exactly when the
    key of some post of the collection is missing from the result of the
    aggregation; it returns, with [comments_count] set on every post,
    exactly when every key is there.  A key is missing from the
    aggregation exactly when the post is no longer in [blog_post]. *)
Theorem fetch_with_comments_count_raises_KeyError_iff_a_key_is_missing self :
  let posts := PostQuerySet.instances db self in
  let aggregated :=
    PostQuerySet.values_list_id_comments_count
      (PostQuerySet.posts_with_comments db (Post.id <$> posts)) in
  let o := PostQuerySet.fetch_with_comments_count db self in
  ((∃ key, PostQuerySet.result o = inl (Python.KeyError key))
   ↔ Exists (λ post, Post.id post ∉ aggregated.*1) posts) ∧
  ((PostQuerySet.result o = inr (PostQuerySet.self_after o) ∧
    ∃ posts', PostQuerySet.result_cache (PostQuerySet.self_after o) = Some posts' ∧
              Forall (λ post', is_Some (Post.comments_count post')) posts')
   ↔ Forall (λ post, Post.id post ∈ aggregated.*1) posts) ∧
  (Exists (λ post, Post.id post ∉ aggregated.*1) posts
   ↔ Exists (λ post, Post.id post ∉ post_id <$> blog_post db) posts).
Proof.
  intros posts aggregated o.
  destruct (fetch_with_comments_count_steps self) as (Hcache & _ & Hresult).
  fold o posts in Hcache, Hresult. fold aggregated in Hcache, Hresult.
  set (r := PostQuerySet.assign_comments_count (Python.dict aggregated) posts) in *.
  assert ((∃ key, r.2 = Some (Python.KeyError key))
          ↔ Exists (λ post, Post.id post ∉ aggregated.*1) posts) as Hraise.
  { subst r. rewrite assign_raises, !Exists_exists.
    by setoid_rewrite dict_lookup_None. }
  assert (r.2 = None ↔ Forall (λ post, Post.id post ∈ aggregated.*1) posts) as Hok.
  { subst r. rewrite assign_succeeds, !Forall_forall.
    setoid_rewrite <-not_eq_None_Some. setoid_rewrite dict_lookup_None.
    split; intros Hall post Hin; specialize (Hall post Hin);
      [by apply dec_stable|by intros ?]. }
  split_and!.
  - rewrite <-Hraise, Hresult.
    destruct r.2 as [[key]|]; split; intros [key' Hkey]; [by eexists|by eexists|done..].
  - rewrite <-Hok, Hresult. split.
    + intros [Hinr _]. by destruct r.2.
    + intros Hnone. rewrite Hnone. split; [done|].
      eexists. split; [exact Hcache|].
      pose proof (assign_values _ _ Hnone) as Hvalues. fold r in Hvalues.
      pose proof (proj1 (assign_succeeds _ _) Hnone) as Hsome.
      apply Forall_lookup_2. intros i post' Hpost'.
      destruct (Forall2_lookup_r _ _ _ _ _ Hvalues Hpost') as (post & Hpost & Heq).
      simpl in Heq. rewrite Heq.
      by apply (Forall_lookup_1 _ _ _ _ Hsome Hpost).
  - rewrite !Exists_exists. split; intros (post & Hin & Habsent); exists post;
      (split; [done|]); intros Hstored; apply Habsent.
    + apply aggregated_keys. split; [by apply list_elem_of_fmap_2|done].
    + by apply aggregated_keys in Hstored as [_ ?].
Qed.

(** C9: whether it returns or raises, [fetch_with_comments_count]
    leaves the query set with the same posts in the same order, each
    changed in [comments_count] at most, and with the same query; what it
    returns, when it returns, is that query set. *)
Theorem fetch_with_comments_count_only_sets_comments_count self :
  let o := PostQuerySet.fetch_with_comments_count db self in
  ∃ posts',
    PostQuerySet.result_cache (PostQuerySet.self_after o) = Some posts' ∧
    Forall2 same_but_comments_count (PostQuerySet.instances db self) posts' ∧
    same_query self (PostQuerySet.self_after o) ∧
    (PostQuerySet.result o = inr (PostQuerySet.self_after o) ∨
     ∃ key, PostQuerySet.result o = inl (Python.KeyError key)).
Proof.
  intros o.
  destruct (fetch_with_comments_count_steps self) as (Hcache & Hquery & Hresult).
  fold o in Hcache, Hquery, Hresult.
  eexists. split_and!; [exact Hcache|apply assign_frame|exact Hquery|].
  rewrite Hresult.
  destruct (PostQuerySet.assign_comments_count _ _).2 as [[key]|]; [right|left]; eauto.
Qed.

End Backfill.

(** ** Deleting a post *)

(** C7: deleting a post succeeds and leaves exactly the comments of
    the other posts, so none that refers to the deleted post; if every
    comment referred to an existing post before, every comment does
    after. *)
Theorem post_delete_cascades_to_comments (db : DB) (post : Post.t) :
  ∃ db',
    Post.delete db post = inr db' ∧
    (∀ c, c ∈ blog_comment db' ↔
          c ∈ blog_comment db ∧ comment_post_id c ≠ Post.id post) ∧
    (fk_comment_post db → fk_comment_post db').
Proof.
  unfold Post.delete, Post.delete_with, Post.Comment_post_on_delete.
  eexists. split; [done|]. simpl. split.
  - intros c. rewrite list_elem_of_filter. tauto.
  - unfold fk_comment_post. simpl. rewrite !Forall_forall.
    intros Hfk c [Hne Hc]%list_elem_of_filter.
    pose proof (Hfk c Hc) as Hstored.
    apply list_elem_of_fmap in Hstored as [p [Hid Hp]].
    apply list_elem_of_fmap. exists p. split; [done|].
    apply list_elem_of_filter. split; [congruence|done].
Qed.

(** ** Cleaning a tag *)

Lemma lower_char_not_upper (c : ascii) : ¬ is_upper (Python.lower_char c).
Proof.
  unfold Python.lower_char, is_upper.
  destruct (65 <=? nat_of_ascii c)%nat eqn:Hlo; simpl;
    [destruct (nat_of_ascii c <=? 90)%nat eqn:Hhi|]; simpl.
  - apply Nat.leb_le in Hlo, Hhi.
    rewrite nat_ascii_embedding by lia. lia.
  - apply Nat.leb_gt in Hhi. lia.
  - apply Nat.leb_gt in Hlo. lia.
Qed.

Lemma ascii_lower_not_upper (s : string) :
  Forall (λ c, ¬ is_upper c) (String.list_ascii_of_string (Python.ascii_lower s)).
Proof.
  induction s as [|c s IH]; simpl; constructor; [apply lower_char_not_upper|done].
Qed.

Lemma write_row_elem (r : TagRow) (db : DB) : r ∈ blog_tag (Tag.write_row r db).
Proof.
  unfold Tag.write_row.
  destruct (decide (tag_id r ∈ tag_id <$> blog_tag db)) as [Hin|Hout]; simpl.
  - apply list_elem_of_fmap in Hin as [r' [Hkey Hr']].
    apply list_elem_of_fmap. exists r'. split; [|done].
    by rewrite decide_True.
  - apply elem_of_app. right. left.
Qed.

(** What [store] answers: the row is written, or another row has the
    title. *)
Lemma store_outcome (db : DB) (key : Z) (self : Tag.t) :
  match Tag.store db key self with
  | inr (db', saved) =>
      saved = Tag.mk (Some key) (Tag.title self) (Tag.posts_count self) ∧
      mkTagRow key (Tag.title self) ∈ blog_tag db'
  | inl e =>
      e = IntegrityError ∧
      Exists (λ r, tag_title r = Tag.title self ∧ tag_id r ≠ key) (blog_tag db)
  end.
Proof.
  unfold Tag.store.
  destruct (decide (Tag.title_taken db key (Tag.title self))) as [Htaken|Hfree].
  - done.
  - split; [done|]. apply write_row_elem.
Qed.

(** C6: saving a cleaned tag stores a row whose title is the lower-case
    form of the title the tag had, under the key of the tag or a new
    one, unless the write is refused: with [IntegrityError] when another
    tag has that title (or the new key is taken), with [OverflowError]
    when the key of the tag does not fit the column, with
    [OperationalError] when the table has no key left.  The lower-case
    form of an ASCII title is the title with [A]..[Z] replaced by
    [a]..[z], so without a capital letter, that of any other title is
    what the Unicode case mappings give; ["Django"] becomes
    ["django"]. *)
Theorem tag_clean_lowercases_the_title (do_lower : string → string) (db : DB)
    (self : Tag.t) :
  let title := Python.lower do_lower (Tag.title self) in
  match Tag.save db (Tag.clean do_lower self) with
  | inr (db', saved) =>
      ∃ key, saved = Tag.mk (Some key) title (Tag.posts_count self) ∧
             mkTagRow key title ∈ blog_tag db' ∧
             (Tag.pk self = Some key ∨ Tag.pk self = None ∧ key = Tag.next_key db)
  | inl IntegrityError =>
      Exists (λ r, tag_title r = title ∧ Some (tag_id r) ≠ Tag.pk self) (blog_tag db) ∨
      Tag.pk self = None ∧ Tag.next_key db ∈ tag_id <$> blog_tag db
  | inl OverflowError =>
      ∃ key, Tag.pk self = Some key ∧ ¬ (Tag.min_key ≤ key ≤ Tag.max_key)
  | inl OperationalError =>
      Tag.pk self = None ∧ Tag.max_key < Tag.next_key db
  | inl ProtectedError => False
  end ∧
  (if Python.isascii (Tag.title self)
   then title = Python.ascii_lower (Tag.title self) ∧
        Forall (λ c, ¬ is_upper c) (String.list_ascii_of_string title)
   else title = do_lower (Tag.title self)) ∧
  Tag.title (Tag.clean do_lower (Tag.mk None "Django" None)) = "django".
Proof.
  intros title. split_and!; [| |done].
  - unfold Tag.save. cbn [Tag.clean Tag.pk Tag.title Tag.posts_count]. fold title.
    pose proof (λ key, store_outcome db key
                  (Tag.mk (Tag.pk self) title (Tag.posts_count self))) as Hstore.
    cbn [Tag.title Tag.posts_count] in Hstore.
    destruct (Tag.pk self) as [key|].
    + destruct (decide (Tag.min_key ≤ key ≤ Tag.max_key)) as [Hrange|Hrange];
        [|by exists key].
      specialize (Hstore key).
      destruct (Tag.store db key _) as [e|[db' saved]].
      * destruct Hstore as [-> Htaken]. left.
        eapply Exists_impl; [exact Htaken|]. simpl. intros r [Htitle Hkey].
        split; [done|]. by intros [= ?].
      * destruct Hstore as [-> Hrow]. exists key. split_and!; [done|done|by left].
    + destruct (decide (Tag.max_key < Tag.next_key db)) as [Hfull|Hroom]; [done|].
      destruct (decide (Tag.next_key db ∈ tag_id <$> blog_tag db)) as [Hin|Hout];
        [by right|].
      specialize (Hstore (Tag.next_key db)).
      destruct (Tag.store db (Tag.next_key db) _) as [e|[db' saved]].
      * destruct Hstore as [-> Htaken]. left.
        eapply Exists_impl; [exact Htaken|]. simpl. by intros r [Htitle Hkey].
      * destruct Hstore as [-> Hrow]. exists (Tag.next_key db).
        split_and!; [done|done|by right].
  - subst title. unfold Python.lower.
    destruct (Python.isascii (Tag.title self)); [|done].
    split; [done|apply ascii_lower_not_upper].
Qed.

(** ** The theorems on the sample blog *)

Lemma sample_keys_are_unique :
  pk_unique_user Sample.db ∧ pk_unique_post Sample.db ∧ pk_unique_tag Sample.db.
Proof.
  unfold pk_unique_user, pk_unique_post, pk_unique_tag.
  split_and!; by_computation.
Defined.

Lemma sample_post_tags_are_sound :
  unique_post_tags Sample.db ∧ fk_post_tags_post Sample.db.
Proof.
  unfold unique_post_tags, fk_post_tags_post. split; by_computation.
Defined.

(** C1: the claim as stated fails for a query set evaluated before its
    third post was deleted: the call raises [KeyError] for the key 3 and
    no post has received a count. *)
Lemma fetch_with_comments_count_raises_for_a_deleted_post :
  let o := PostQuerySet.fetch_with_comments_count Sample.db_without_third
             Sample.evaluated in
  Post.id <$> PostQuerySet.instances Sample.db_without_third Sample.evaluated
    = [3; 2; 1] ∧
  PostQuerySet.result o = inl (Python.KeyError 3) ∧
  Post.comments_count <$>
    default [] (PostQuerySet.result_cache (PostQuerySet.self_after o))
    = [None; None; None] ∧
  number_of_comments Sample.db_without_third 2 = 2%nat ∧
  pk_unique_post Sample.db_without_third.
Proof.
  cbv zeta. split_and!; [by vm_compute..|].
  unfold pk_unique_post. by_computation.
Qed.

Lemma fetch_with_comments_count_counts_the_comments_witness :
  pk_unique_post Sample.db ∧
  (PostQuerySet.result_cache PostQuerySet.objects = None ∨
   Forall (λ post, Post.id post ∈ post_id <$> blog_post Sample.db)
     (PostQuerySet.instances Sample.db PostQuerySet.objects)) ∧
  let o := PostQuerySet.fetch_with_comments_count Sample.db PostQuerySet.objects in
  PostQuerySet.result o = inr (PostQuerySet.self_after o) ∧
  ∃ posts',
    PostQuerySet.result_cache (PostQuerySet.self_after o) = Some posts' ∧
    Forall2 (λ post post',
        Post.row post' = Post.row post ∧
        Post.comments_count post' = Some (number_of_comments Sample.db (Post.id post)))
      (PostQuerySet.instances Sample.db PostQuerySet.objects) posts'.
Proof.
  split_and!; [apply sample_keys_are_unique|by left|].
  apply (fetch_with_comments_count_counts_the_comments Sample.db PostQuerySet.objects);
    [apply sample_keys_are_unique|by left].
Defined.

Lemma tag_popular_counts_posts_in_descending_order_witness :
  pk_unique_tag Sample.db ∧ pk_unique_post Sample.db ∧
  unique_post_tags Sample.db ∧ fk_post_tags_post Sample.db ∧
  let tags := TagQuerySet.select Sample.db (TagQuerySet.popular TagQuerySet.objects) in
  (∀ tag, tag ∈ tags ↔
     ∃ r, r ∈ TagQuerySet.rows Sample.db TagQuerySet.objects ∧
          tag = Tag.mk (Some (tag_id r)) (tag_title r)
                  (Some (number_of_posts Sample.db (tag_id r)))) ∧
  StronglySorted
    (λ a b, ∃ m n, Tag.posts_count a = Some m ∧ Tag.posts_count b = Some n ∧
                   (n ≤ m)%nat)
    tags.
Proof.
  split_and!;
    [apply sample_keys_are_unique|apply sample_keys_are_unique
    |apply sample_post_tags_are_sound|apply sample_post_tags_are_sound|].
  apply (tag_popular_counts_posts_in_descending_order Sample.db TagQuerySet.objects);
    [apply sample_keys_are_unique|apply sample_keys_are_unique
    |apply sample_post_tags_are_sound|apply sample_post_tags_are_sound].
Defined.

Lemma popular_keeps_the_elements_witness :
  pk_unique_tag Sample.db ∧ pk_unique_post Sample.db ∧ pk_unique_user Sample.db ∧
  Tag.without_annotation <$>
      TagQuerySet.select Sample.db (TagQuerySet.popular TagQuerySet.objects)
    ≡ₚ Tag.without_annotation <$> TagQuerySet.select Sample.db TagQuerySet.objects ∧
  Post.row <$> PostQuerySet.instances Sample.db (PostQuerySet.popular PostQuerySet.objects)
    ≡ₚ Post.row <$> PostQuerySet.select Sample.db PostQuerySet.objects.
Proof.
  split_and!; [apply sample_keys_are_unique..| |];
    apply (popular_keeps_the_elements Sample.db TagQuerySet.objects PostQuerySet.objects);
    apply sample_keys_are_unique.
Defined.

Lemma post_delete_cascades_to_comments_witness :
  fk_comment_post Sample.db ∧
  ∃ db', Post.delete Sample.db (Post.mk Sample.second None None None None None)
         = inr db' ∧
         fk_comment_post db'.
Proof.
  assert (fk_comment_post Sample.db) as Hfk
    by (unfold fk_comment_post; by_computation).
  split; [exact Hfk|].
  destruct (post_delete_cascades_to_comments Sample.db
              (Post.mk Sample.second None None None None None))
    as (db' & Hdelete & _ & Hkept).
  exists db'. split; [exact Hdelete|by apply Hkept].
Defined.
(** ** More about tags *)

Lemma lower_char_fixed (c : ascii) : ¬ is_upper c → Python.lower_char c = c.
Proof.
  unfold Python.lower_char, is_upper. intros Hc.
  destruct (65 <=? nat_of_ascii c)%nat eqn:Hlo; simpl; [|done].
  destruct (nat_of_ascii c <=? 90)%nat eqn:Hhi; simpl; [|done].
  apply Nat.leb_le in Hlo, Hhi. lia.
Qed.

Lemma ascii_lower_fixed (s : string) :
  Python.ascii_lower s = s
  ↔ Forall (λ c, ¬ is_upper c) (String.list_ascii_of_string s).
Proof.
  induction s as [|c s IH]; simpl; [by split; [constructor|]|].
  rewrite Forall_cons, <-IH. split.
  - intros [= Hc Hs]. split; [|done]. rewrite <-Hc. apply lower_char_not_upper.
  - intros [Hc Hs]. by rewrite lower_char_fixed, Hs.
Qed.

Lemma ascii_lower_idempotent (s : string) :
  Python.ascii_lower (Python.ascii_lower s) = Python.ascii_lower s.
Proof. apply ascii_lower_fixed, ascii_lower_not_upper. Qed.

Lemma ascii_lower_length (s : string) :
  String.length (Python.ascii_lower s) = String.length s.
Proof. induction s as [|c s IH]; simpl; [done|by rewrite IH]. Qed.

Lemma lower_char_isascii (c : ascii) :
  (nat_of_ascii c <? 128)%nat = true →
  (nat_of_ascii (Python.lower_char c) <? 128)%nat = true.
Proof.
  unfold Python.lower_char. intros Hc.
  destruct (65 <=? nat_of_ascii c)%nat eqn:Hlo; simpl; [|done].
  destruct (nat_of_ascii c <=? 90)%nat eqn:Hhi; simpl; [|done].
  apply Nat.leb_le in Hlo, Hhi.
  rewrite nat_ascii_embedding by lia. apply Nat.ltb_lt. lia.
Qed.

Lemma ascii_lower_isascii (s : string) :
  Python.isascii s = true → Python.isascii (Python.ascii_lower s) = true.
Proof.
  unfold Python.isascii. induction s as [|c s IH]; simpl; [done|].
  intros [Hc Hs]%andb_prop. rewrite lower_char_isascii by done. by apply IH.
Qed.

(** X1: on a tag with an ASCII title [Tag.clean] is idempotent; it
    leaves the tag as it is exactly when the title has no capital
    letter; it keeps the length of the title, which stays ASCII, the key
    and the annotation. *)
Theorem tag_clean_is_idempotent (do_lower : string → string) (self : Tag.t) :
  Python.isascii (Tag.title self) = true →
  Tag.clean do_lower (Tag.clean do_lower self) = Tag.clean do_lower self ∧
  (Tag.clean do_lower self = self
   ↔ Forall (λ c, ¬ is_upper c) (String.list_ascii_of_string (Tag.title self))) ∧
  String.length (Tag.title (Tag.clean do_lower self)) = String.length (Tag.title self) ∧
  Python.isascii (Tag.title (Tag.clean do_lower self)) = true ∧
  Tag.pk (Tag.clean do_lower self) = Tag.pk self ∧
  Tag.posts_count (Tag.clean do_lower self) = Tag.posts_count self.
Proof.
  destruct self as [pk title posts_count]. unfold Tag.clean, Python.lower. simpl.
  intros Hascii. rewrite Hascii, (ascii_lower_isascii _ Hascii).
  split_and!;
    [by rewrite ascii_lower_idempotent| |apply ascii_lower_length|done..].
  rewrite <-ascii_lower_fixed. split; [by intros [= ->]|by intros ->].
Qed.

(** X2: two new tags whose titles have the same lower-case form, so
    titles that differ in the case of letters only, cannot both be saved
    once cleaned: after the first is stored, saving the second is
    refused, with [IntegrityError] as long as the table has a key left
    to try. *)
Theorem tag_titles_that_differ_in_case_collide (do_lower : string → string)
    (db db1 : DB) (a b : string) (saved : Tag.t) :
  Python.lower do_lower a = Python.lower do_lower b →
  Tag.save db (Tag.clean do_lower (Tag.mk None a None)) = inr (db1, saved) →
  Tag.save db1 (Tag.clean do_lower (Tag.mk None b None))
  = inl (if decide (Tag.next_key db1 ≤ Tag.max_key)
         then IntegrityError else OperationalError).
Proof.
  intros Hab. unfold Tag.save, Tag.store. simpl.
  destruct (decide (Tag.max_key < Tag.next_key db)) as [|Hroom]; [done|].
  destruct (decide (Tag.next_key db ∈ tag_id <$> blog_tag db)) as [|Hnew]; [done|].
  destruct (decide (Tag.title_taken db _ _)) as [|Hfree]; [done|].
  intros [= <- _].
  set (row := mkTagRow (Tag.next_key db) (Python.lower do_lower a)).
  assert (blog_tag (Tag.write_row row db) = blog_tag db ++ [row]) as Hrows.
  { unfold Tag.write_row. by rewrite decide_False by done. }
  assert (Tag.next_key (Tag.write_row row db) = Tag.next_key db + 1) as Hnext.
  { unfold Tag.write_row. rewrite decide_False by done.
    unfold Tag.next_key. simpl. unfold Tag.next_key. lia. }
  destruct (decide (Tag.max_key < Tag.next_key (Tag.write_row row db))) as [Hfull|Hroom1];
    destruct (decide (Tag.next_key (Tag.write_row row db) ≤ Tag.max_key));
    [lia|done| |lia].
  destruct (decide (Tag.next_key (Tag.write_row row db) ∈ _)); [done|].
  rewrite decide_True; [done|].
  unfold Tag.title_taken. apply Exists_exists. exists row.
  rewrite Hrows, Hnext. split; [apply elem_of_app; right; left|].
  simpl. split; [done|lia].
Qed.

(** Rewriting the row of a key keeps the keys, and keeps the titles
    distinct when the new title is not the title of another row. *)
Lemma rewrite_row_keys (r : TagRow) (rows : list TagRow) :
  tag_id <$> ((λ r', if decide (tag_id r' = tag_id r) then r else r') <$> rows)
  = tag_id <$> rows.
Proof.
  rewrite <-list_fmap_compose. apply list_fmap_ext. intros _ r' _. simpl.
  by destruct (decide (tag_id r' = tag_id r)) as [->|].
Qed.

Lemma rewrite_row_titles (r : TagRow) (rows : list TagRow) :
  NoDup (tag_id <$> rows) →
  NoDup (tag_title <$> rows) →
  Forall (λ r', tag_title r' = tag_title r → tag_id r' = tag_id r) rows →
  NoDup (tag_title <$> ((λ r', if decide (tag_id r' = tag_id r) then r else r') <$> rows)).
Proof.
  induction rows as [|r0 rows IH]; csimpl; [constructor|].
  intros [Hid0 Hids]%NoDup_cons [Hr0 Hnd]%NoDup_cons [Hfree0 Hfree]%Forall_cons.
  apply NoDup_cons. split; [|by apply IH].
  intros [r1 [Htitle [r2 [-> Hr2]]%list_elem_of_fmap]]%list_elem_of_fmap.
  pose proof (proj1 (Forall_forall _ _) Hfree r2 Hr2) as Hfree2.
  destruct (decide (tag_id r0 = tag_id r)) as [H0|H0];
    destruct (decide (tag_id r2 = tag_id r)) as [H2|H2].
  - apply Hid0. apply list_elem_of_fmap. exists r2. split; [congruence|done].
  - apply H2, Hfree2. congruence.
  - apply H0, Hfree0. congruence.
  - apply Hr0. apply list_elem_of_fmap. by exists r2.
Qed.

(** X3: a save that goes through keeps the keys and the titles of the
    tags unique; the saved instance has a key, its row is in the table,
    and the rows of the other keys are the ones that were there. *)
Theorem tag_save_keeps_keys_and_titles_unique (db db' : DB) (self saved : Tag.t) :
  pk_unique_tag db → unique_tag_title db →
  Tag.save db self = inr (db', saved) →
  pk_unique_tag db' ∧ unique_tag_title db' ∧
  ∃ key, saved = Tag.mk (Some key) (Tag.title self) (Tag.posts_count self) ∧
         mkTagRow key (Tag.title self) ∈ blog_tag db' ∧
         (∀ r, tag_id r ≠ key → r ∈ blog_tag db' ↔ r ∈ blog_tag db).
Proof.
  unfold pk_unique_tag, unique_tag_title.
  intros Hpk Htitles Hsave.
  assert (∃ key, Tag.store db key self = inr (db', saved)) as [key Hstore].
  { unfold Tag.save in Hsave. destruct (Tag.pk self) as [key|].
    - destruct (decide (Tag.min_key ≤ key ≤ Tag.max_key)); [by exists key|done].
    - destruct (decide (Tag.max_key < Tag.next_key db)); [done|].
      destruct (decide (Tag.next_key db ∈ tag_id <$> blog_tag db)); [done|].
      by exists (Tag.next_key db). }
  clear Hsave. revert Hstore. unfold Tag.store.
  destruct (decide (Tag.title_taken db key (Tag.title self))) as [|Hfree]; [done|].
  intros [= <- <-].
  assert (Forall (λ r', tag_title r' = Tag.title self → tag_id r' = key)
            (blog_tag db)) as Hfree'.
  { apply Forall_forall. intros r' Hr' Heq.
    destruct (decide (tag_id r' = key)) as [|Hne]; [done|].
    destruct Hfree. apply Exists_exists. by exists r'. }
  clear Hfree. unfold Tag.write_row. cbn [tag_id].
  destruct (decide (key ∈ tag_id <$> blog_tag db)) as [Hin|Hout]; cbn [blog_tag].
  - split_and!.
    + by rewrite (rewrite_row_keys (mkTagRow key (Tag.title self))).
    + by apply (rewrite_row_titles (mkTagRow key (Tag.title self))).
    + exists key. split_and!; [done| |].
      * apply list_elem_of_fmap in Hin as [r [Hkey Hr]].
        apply list_elem_of_fmap. exists r. split; [|done].
        simpl. by rewrite decide_True.
      * intros r Hne. rewrite list_elem_of_fmap. split.
        -- intros [r' [-> Hr']]. simpl in *.
           destruct (decide (tag_id r' = key)); [done|done].
        -- intros Hr. exists r. split; [|done]. simpl. by rewrite decide_False.
  - split_and!.
    + rewrite fmap_app. apply NoDup_app. split_and!; [done| |apply NoDup_singleton].
      intros k Hk ->%list_elem_of_singleton. done.
    + rewrite fmap_app. apply NoDup_app. split_and!; [done| |apply NoDup_singleton].
      intros t [r' [-> Hr']]%list_elem_of_fmap Heq%list_elem_of_singleton.
      simpl in Heq. apply Hout. apply list_elem_of_fmap. exists r'. split; [|done].
      symmetry. by apply (proj1 (Forall_forall _ _) Hfree' r' Hr').
    + exists key. split_and!; [done|apply elem_of_app; right; left|].
      intros r Hne. rewrite elem_of_app, list_elem_of_singleton. split; [|by left].
      intros [?|Heq]; [done|]. subst r. by destruct Hne.
Qed.

(** ** More about the backfill of comment counts *)

Section BackfillMore.
Variable db : DB.
Implicit Types (self : PostQuerySet.t) (posts : list Post.t) (d : gmap Z nat).

(** The loop stops at the first post whose key is missing: the posts
    before it have their count, the others are as they were. *)
Lemma assign_stops_at_first_missing d posts e :
  (PostQuerySet.assign_comments_count d posts).2 = Some e →
  ∃ done post rest,
    posts = done ++ post :: rest ∧
    e = Python.KeyError (Post.id post) ∧
    d !! Post.id post = None ∧
    Forall (λ p, is_Some (d !! Post.id p)) done ∧
    (PostQuerySet.assign_comments_count d posts).1
    = ((λ p, Post.set_comments_count (default 0%nat (d !! Post.id p)) p) <$> done)
        ++ post :: rest.
Proof.
  induction posts as [|post rest IH]; simpl; [done|].
  unfold Python.getitem. destruct (d !! Post.id post) as [n|] eqn:Hn; simpl.
  - intros Hrest. destruct (IH Hrest) as (done & post' & rest' & -> & -> & Hnone & Hdone & ->).
    exists (post :: done), post', rest'. csimpl. rewrite Hn. simpl.
    split_and!; [done..| |done]. constructor; [by eexists|done].
  - intros [= <-]. exists [], post, rest. by split_and!.
Qed.

Lemma assign_keeps_ids d posts :
  Post.id <$> (PostQuerySet.assign_comments_count d posts).1 = Post.id <$> posts.
Proof.
  induction posts as [|post rest IH]; simpl; [done|].
  unfold Python.getitem. destruct (d !! Post.id post) as [n|]; [|done].
  cbn [fst]. rewrite fmap_cons. by rewrite IH.
Qed.

(** Running the loop again over its own result changes nothing. *)
Lemma assign_twice d posts :
  (PostQuerySet.assign_comments_count d posts).2 = None →
  PostQuerySet.assign_comments_count d (PostQuerySet.assign_comments_count d posts).1
  = ((PostQuerySet.assign_comments_count d posts).1, None).
Proof.
  induction posts as [|post rest IH]; simpl; [done|].
  unfold Python.getitem. destruct (d !! Post.id post) as [n|] eqn:Hn; simpl; [|done].
  intros Hrest. unfold Python.getitem.
  change (Post.id (Post.set_comments_count n post)) with (Post.id post).
  rewrite Hn. simpl. by rewrite (IH Hrest).
Qed.

(** X5: when [fetch_with_comments_count] raises [KeyError], the key is
    that of the first post of the collection that is not stored; the
    posts before it are all stored and have received their number of
    comments, that post and the posts after it are as they were. *)
Theorem fetch_with_comments_count_stops_at_the_first_missing_post self key :
  pk_unique_post db →
  PostQuerySet.result (PostQuerySet.fetch_with_comments_count db self)
    = inl (Python.KeyError key) →
  ∃ done post rest,
    PostQuerySet.instances db self = done ++ post :: rest ∧
    Post.id post = key ∧
    (key ∉ post_id <$> blog_post db) ∧
    Forall (λ p, Post.id p ∈ post_id <$> blog_post db) done ∧
    PostQuerySet.result_cache
      (PostQuerySet.self_after (PostQuerySet.fetch_with_comments_count db self))
    = Some (((λ p, Post.set_comments_count (number_of_comments db (Post.id p)) p)
               <$> done) ++ post :: rest).
Proof.
  intros Hpk Hraised.
  destruct (fetch_with_comments_count_steps db self) as (Hcache & _ & Hresult).
  set (posts := PostQuerySet.instances db self) in *.
  set (count_for_id := Python.dict _) in *.
  rewrite Hresult in Hraised.
  destruct (PostQuerySet.assign_comments_count count_for_id posts).2 as [e|] eqn:He;
    [|done].
  injection Hraised as ->.
  destruct (assign_stops_at_first_missing _ _ _ He)
    as (done & post & rest & Hposts & [= Hkey] & Hnone & Hdone & Hafter).
  assert (∀ p, p ∈ posts → Post.id p ∈ Post.id <$> posts) as Hids
    by (intros p Hp; by apply list_elem_of_fmap_2).
  exists done, post, rest. split_and!; [done|done| | |].
  - rewrite Hkey. intros Hstored.
    apply dict_lookup_None in Hnone. apply Hnone, aggregated_keys.
    split; [|done]. apply Hids. rewrite Hposts. apply elem_of_app. right. left.
  - eapply Forall_impl; [exact Hdone|]. simpl. intros p Hp.
    apply not_eq_None_Some in Hp. destruct (decide (Post.id p ∈ post_id <$> blog_post db))
      as [|Hout]; [done|].
    destruct Hp. apply dict_lookup_None. by intros [_ ?]%aggregated_keys.
  - rewrite Hcache, Hafter. do 2 f_equal.
    apply list_fmap_ext. intros i p Hp. f_equal.
    assert (p ∈ done) as Hin by by eapply list_elem_of_lookup_2.
    pose proof (proj1 (Forall_forall _ _) Hdone p Hin) as Hsome.
    assert (Post.id p ∈ post_id <$> blog_post db) as Hstored.
    { apply not_eq_None_Some in Hsome.
      destruct (decide (Post.id p ∈ post_id <$> blog_post db)) as [|Hout]; [done|].
      destruct Hsome. apply dict_lookup_None. by intros [_ ?]%aggregated_keys. }
    subst count_for_id. rewrite count_for_id_lookup; [done|done| |done].
    apply Hids. rewrite Hposts. apply elem_of_app. by left.
Qed.

(** X6: calling [fetch_with_comments_count] on the query set that a
    call has returned, over the same database, returns that query set
    unchanged. *)
Theorem fetch_with_comments_count_again_changes_nothing self (qs : PostQuerySet.t) :
  PostQuerySet.result (PostQuerySet.fetch_with_comments_count db self) = inr qs →
  PostQuerySet.result (PostQuerySet.fetch_with_comments_count db qs) = inr qs ∧
  PostQuerySet.self_after (PostQuerySet.fetch_with_comments_count db qs) = qs.
Proof.
  unfold PostQuerySet.fetch_with_comments_count at 1.
  destruct (PostQuerySet.fetch_all db self) as [self1 sent].
  set (posts := default [] (PostQuerySet.result_cache self1)).
  set (count_for_id := Python.dict _).
  destruct (PostQuerySet.assign_comments_count count_for_id posts)
    as [posts' raised] eqn:Hloop. simpl.
  destruct raised as [e|]; [done|]. intros [= <-].
  assert (posts' = (PostQuerySet.assign_comments_count count_for_id posts).1) as Hposts'
    by by rewrite Hloop.
  assert ((PostQuerySet.assign_comments_count count_for_id posts).2 = None) as Hnone
    by by rewrite Hloop.
  unfold PostQuerySet.fetch_with_comments_count, PostQuerySet.fetch_all. simpl.
  assert (Post.id <$> posts' = Post.id <$> posts) as ->
    by (rewrite Hposts'; apply assign_keeps_ids).
  fold count_for_id. rewrite Hposts', assign_twice by done. done.
Qed.

(** X4: a query set that is already evaluated is not evaluated again:
    the call sends the aggregation over the keys of its posts and nothing
    else, and nothing at all when it has no post.  A query set that is
    not evaluated is evaluated first (its own query, then batch fetches,
    one per lookup at most), and the aggregation comes last. *)
Theorem fetch_with_comments_count_sends_one_more_statement self :
  let o := PostQuerySet.fetch_with_comments_count db self in
  let aggregation (posts : list Post.t) :=
    match posts with
    | [] => []
    | _ => [SELECT_blog_post_comments_count (Post.id <$> posts)]
    end in
  match PostQuerySet.result_cache self with
  | Some posts => PostQuerySet.statements o = aggregation posts
  | None =>
      ∃ secondary,
        PostQuerySet.statements o
        = SELECT_blog_post :: secondary ++ aggregation (PostQuerySet.instances db self) ∧
        (length secondary ≤ length (PostQuerySet.prefetch_related_lookups self))%nat ∧
        Forall is_batch_fetch secondary
  end.
Proof.
  intros o aggregation. subst o.
  unfold PostQuerySet.fetch_with_comments_count, PostQuerySet.instances,
    PostQuerySet.fetch_all.
  destruct (PostQuerySet.result_cache self) as [posts|] eqn:Hcache.
  - rewrite Hcache. simpl.
    destruct (PostQuerySet.assign_comments_count _ posts) as [posts' raised].
    simpl. by destruct posts.
  - simpl.
    destruct (PostQuerySet.assign_comments_count _ _) as [posts' raised]. simpl.
    destruct (prefetch_related_objects_statements db (PostQuerySet.select db self)
                (PostQuerySet.prefetch_related_lookups self)) as [Hlen Hbatch].
    eexists. split_and!; [|exact Hlen|exact Hbatch].
    f_equal. f_equal.
    by destruct (PostQuerySet.prefetch_related_objects _ _ _).1.
Qed.

End BackfillMore.

Lemma StronglySorted_Forall2 {A B} (R : relation A) (R' : relation B)
    (Q : A → B → Prop) (l : list A) (l' : list B) :
  (∀ a b a' b', Q a a' → Q b b' → R a b → R' a' b') →
  Forall2 Q l l' → StronglySorted R l → StronglySorted R' l'.
Proof.
  intros HR HQ. induction HQ as [|a a' l l' Ha HQ IH]; [constructor|].
  intros [Hhead Hs]%StronglySorted_cons. constructor; [by apply IH|].
  apply Forall_lookup_2. intros i b' Hb'.
  destruct (Forall2_lookup_r _ _ _ _ _ HQ Hb') as (b & Hb & Hbb).
  eapply HR; [done..|]. by eapply Forall_lookup_1.
Qed.

Section PopularThenBackfill.
Variable db : DB.
Implicit Types (self : PostQuerySet.t).

(** The backfill over posts that are all stored. *)
Lemma backfill_of_stored self :
  pk_unique_post db →
  Forall (λ post, Post.id post ∈ post_id <$> blog_post db)
    (PostQuerySet.instances db self) →
  let o := PostQuerySet.fetch_with_comments_count db self in
  PostQuerySet.result o = inr (PostQuerySet.self_after o) ∧
  ∃ posts',
    PostQuerySet.result_cache (PostQuerySet.self_after o) = Some posts' ∧
    Forall2 (λ post post',
        same_but_comments_count post post' ∧
        Post.comments_count post' = Some (number_of_comments db (Post.id post)))
      (PostQuerySet.instances db self) posts'.
Proof.
  intros Hpk Hstored o.
  destruct (fetch_with_comments_count_steps db self) as (Hcache & _ & Hresult).
  fold o in Hcache, Hresult.
  set (posts := PostQuerySet.instances db self) in *.
  set (count_for_id := Python.dict _) in *.
  assert (Forall (λ post, count_for_id !! Post.id post
                          = Some (number_of_comments db (Post.id post))) posts)
    as Hlookup.
  { apply Forall_forall. intros post Hin. apply count_for_id_lookup; [done| |].
    - by apply list_elem_of_fmap_2.
    - by apply (proj1 (Forall_forall _ _) Hstored). }
  assert ((PostQuerySet.assign_comments_count count_for_id posts).2 = None) as Hnone.
  { apply assign_succeeds. eapply Forall_impl; [exact Hlookup|].
    simpl. intros post ->. by eexists. }
  rewrite Hnone in Hresult. split; [done|].
  eexists. split; [exact Hcache|].
  pose proof (assign_frame count_for_id posts) as Hframe.
  pose proof (assign_values count_for_id posts Hnone) as Hvalues.
  apply Forall2_same_length_lookup_2; [by eapply Forall2_length|].
  intros i post post' Hpost Hpost'.
  split; [by apply (Forall2_lookup_lr _ _ _ _ _ _ Hframe Hpost Hpost')|].
  pose proof (Forall2_lookup_lr _ _ _ _ _ _ Hvalues Hpost Hpost') as Hcount.
  simpl in Hcount. rewrite Hcount.
  apply (proj1 (Forall_forall _ _) Hlookup). by eapply list_elem_of_lookup_2.
Qed.

(** What [popular] yields, in terms of the likes in the database. *)
Lemma popular_instances_by_likes self :
  pk_unique_post db → pk_unique_user db →
  let posts := PostQuerySet.instances db (PostQuerySet.popular self) in
  Forall (λ post, Post.likes_count post = Some (number_of_likes db (Post.id post)))
    posts ∧
  StronglySorted
    (λ a b, (number_of_likes db (Post.id b) ≤ number_of_likes db (Post.id a))%nat)
    posts ∧
  Post.row <$> posts ≡ₚ Post.row <$> PostQuerySet.select db self.
Proof.
  intros Hpost Huser posts.
  pose proof (prefetch_related_objects_own db
                (PostQuerySet.select db (PostQuerySet.popular self))
                (PostQuerySet.prefetch_related_lookups (PostQuerySet.popular self)))
    as Hown.
  rewrite <-instances_of_fresh in Hown by done. fold posts in Hown.
  set (selected := PostQuerySet.select db (PostQuerySet.popular self)) in *.
  assert (Forall (λ post, (Post.own_attributes post).1.2
                          = Some (number_of_likes db (post_id (Post.own_attributes post).1.1.1)))
            selected) as Hlikes.
  { subst selected. rewrite post_popular_select, order_by_desc_perm.
    rewrite post_groups by by apply post_from_clause_NoDup.
    apply Forall_fmap, Forall_forall. by intros pu _. }
  split_and!.
  - by apply (Forall_own_attributes
                (λ a, a.1.2 = Some (number_of_likes db (post_id a.1.1.1))) selected posts).
  - apply (StronglySorted_of_fmap Post.own_attributes _
             (λ a b, (number_of_likes db (post_id b.1.1.1)
                      ≤ number_of_likes db (post_id a.1.1.1))%nat)); [done|].
    rewrite Hown.
    apply (StronglySorted_fmap _
             (λ a b, (number_of_likes db (Post.id b) ≤ number_of_likes db (Post.id a))%nat));
      [done|].
    apply (StronglySorted_strengthen (desc PostQuerySet.likes_count_key) _
             (λ post, Post.likes_count post = Some (number_of_likes db (Post.id post))));
      [|exact Hlikes|].
    + intros a b Ha Hb. unfold desc, PostQuerySet.likes_count_key.
      rewrite Ha, Hb. simpl. lia.
    + subst selected. rewrite post_popular_select. apply order_by_desc_sorted.
  - rewrite (own_attributes_row _ _ Hown). subst selected.
    rewrite !post_select_rows by by apply post_from_clause_NoDup.
    done.
Qed.

(** X7: [self.popular().fetch_with_comments_count()] over a database
    with unique keys returns; its posts are those of [self], each with
    its number of likes and its number of comments, in non-increasing
    order of likes. *)
Theorem popular_then_fetch_with_comments_count self :
  pk_unique_post db → pk_unique_user db →
  let o := PostQuerySet.fetch_with_comments_count db (PostQuerySet.popular self) in
  PostQuerySet.result o = inr (PostQuerySet.self_after o) ∧
  ∃ posts,
    PostQuerySet.result_cache (PostQuerySet.self_after o) = Some posts ∧
    Post.row <$> posts ≡ₚ Post.row <$> PostQuerySet.select db self ∧
    Forall (λ post,
        Post.likes_count post = Some (number_of_likes db (Post.id post)) ∧
        Post.comments_count post = Some (number_of_comments db (Post.id post)))
      posts ∧
    StronglySorted
      (λ a b, (number_of_likes db (Post.id b) ≤ number_of_likes db (Post.id a))%nat)
      posts.
Proof.
  intros Hpost Huser o.
  destruct (popular_instances_by_likes self Hpost Huser) as (Hlikes & Hsorted & Hrows).
  assert (Forall (λ post, Post.id post ∈ post_id <$> blog_post db)
            (PostQuerySet.instances db (PostQuerySet.popular self))) as Hstored.
  { eapply Forall_impl; [by apply fresh_instances_are_stored|].
    intros post Hrow. by apply (list_elem_of_fmap_2 post_id). }
  destruct (backfill_of_stored _ Hpost Hstored) as (Hresult & posts & Hcache & Hframe).
  split; [done|]. exists posts. split_and!; [done| | |].
  - rewrite <-Hrows.
    assert (Post.row <$> PostQuerySet.instances db (PostQuerySet.popular self)
            = Post.row <$> posts) as <-; [|done].
    apply list_eq_Forall2, Forall2_fmap.
    eapply Forall2_impl; [exact Hframe|]. simpl. by intros p p' [(-> & _) _].
  - apply Forall_lookup_2. intros i p' Hp'.
    destruct (Forall2_lookup_r _ _ _ _ _ Hframe Hp') as (p & Hp & [(Hrow & _ & _ & _ & Hl) Hc]).
    pose proof (Forall_lookup_1 _ _ _ _ Hlikes Hp) as Hlp. simpl in Hlp.
    unfold Post.id in *. rewrite Hrow, Hl. done.
  - eapply StronglySorted_Forall2; [|exact Hframe|exact Hsorted].
    simpl. intros a b a' b' [(Ha & _) _] [(Hb & _) _]. unfold Post.id.
    by rewrite Ha, Hb.
Qed.

End PopularThenBackfill.

(** ** The most popular tag *)

(** X8: the first tag [popular] returns is a tag of the query set that
    no tag of the query set has more posts than; [popular] returns no tag
    only when the query set has none. *)
Theorem tag_popular_puts_a_most_used_tag_first (db : DB) (self : TagQuerySet.t) :
  pk_unique_tag db → pk_unique_post db → unique_post_tags db → fk_post_tags_post db →
  match TagQuerySet.select db (TagQuerySet.popular self) with
  | [] => TagQuerySet.rows db self = []
  | first :: _ =>
      ∃ r, r ∈ TagQuerySet.rows db self ∧
           Tag.pk first = Some (tag_id r) ∧
           Tag.posts_count first = Some (number_of_posts db (tag_id r)) ∧
           ∀ r', r' ∈ TagQuerySet.rows db self →
                 (number_of_posts db (tag_id r') ≤ number_of_posts db (tag_id r))%nat
  end.
Proof.
  intros Hpk Hpost Huniq Hfk.
  pose proof (order_by_desc_sorted TagQuerySet.posts_count_key
    (TagQuerySet.instance_of_group <$> group_by (TagQuerySet.join_posts db self)))
    as Hsorted.
  pose proof (order_by_desc_perm TagQuerySet.posts_count_key
    (TagQuerySet.instance_of_group <$> group_by (TagQuerySet.join_posts db self)))
    as Hperm.
  rewrite <-tag_popular_select in Hsorted, Hperm.
  rewrite tag_groups in Hperm by done.
  set (annotate := λ r, Tag.mk (Some (tag_id r)) (tag_title r)
         (Some (length (filter (λ pt, pt_tag_id pt = tag_id r) (blog_post_tags db)))))
    in Hperm.
  destruct (TagQuerySet.select db (TagQuerySet.popular self)) as [|first rest].
  - apply Permutation_nil_l in Hperm. symmetry in Hperm.
    by apply fmap_nil_inv in Hperm.
  - assert (first ∈ annotate <$> TagQuerySet.rows db self) as Hfirst
      by (rewrite <-Hperm; left).
    apply list_elem_of_fmap in Hfirst as [r [-> Hr]].
    exists r. split_and!; [done|done|by rewrite <-tag_rows_are_posts|].
    intros r' Hr'.
    assert (annotate r' ∈ annotate r :: rest) as Hin
      by (rewrite Hperm; by apply list_elem_of_fmap_2).
    rewrite <-!tag_rows_are_posts by done.
    apply elem_of_cons in Hin as [Heq|Hin].
    + by injection Heq as _ _ ->.
    + apply StronglySorted_cons in Hsorted as [Hhead _].
      pose proof (proj1 (Forall_forall _ _) Hhead _ Hin) as Hle.
      unfold desc, TagQuerySet.posts_count_key in Hle. simpl in Hle. lia.
Qed.

(** ** More about joins *)

Lemma filter_fmap_commute {A B} (f : A → B) (P : B → Prop) (Q : A → Prop)
    `{∀ y, Decision (P y)} `{∀ x, Decision (Q x)} (l : list A) :
  (∀ x, Q x ↔ P (f x)) → filter P (f <$> l) = f <$> filter Q l.
Proof.
  intros HPQ. induction l as [|x l IH]; [done|]. csimpl. rewrite !filter_cons.
  destruct (decide (P (f x))) as [HP|HP], (decide (Q x)) as [HQ|HQ]; csimpl;
    [by rewrite IH|by apply HPQ in HP|by apply HPQ in HQ|done].
Qed.

Lemma StronglySorted_filter {A} (R : relation A) (P : A → Prop)
    `{∀ x, Decision (P x)} (l : list A) :
  StronglySorted R l → StronglySorted R (filter P l).
Proof.
  induction 1 as [|x l Hs IH Hx]; [constructor|].
  rewrite filter_cons. destruct (decide (P x)); [|done].
  constructor; [done|]. apply Forall_forall. intros y [_ Hy]%list_elem_of_filter.
  by apply (proj1 (Forall_forall _ _) Hx).
Qed.

(** With unique keys on the right, a row on the left has one partner at
    most, and an INNER JOIN on the key keeps each left row that has a
    partner, once. *)
Lemma at_most_one_with_key {B} (key : B → Z) (lb : list B) (k : Z) :
  NoDup (key <$> lb) → (length (filter (λ b, key b = k) lb) ≤ 1)%nat.
Proof.
  induction lb as [|b lb IH]; csimpl; [lia|].
  intros [Hb Hnd]%NoDup_cons. rewrite filter_cons.
  destruct (decide (key b = k)) as [<-|]; [|by apply IH].
  rewrite filter_none; [simpl; lia|].
  apply Forall_forall. intros b' Hb' Heq. apply Hb.
  apply list_elem_of_fmap. by exists b'.
Qed.

Lemma inner_join_on_key {A B} (fk : A → Z) (key : B → Z) (la : list A) (lb : list B) :
  NoDup (key <$> lb) →
  (inner_join (λ a b, bool_decide (key b = fk a)) la lb).*1
  = filter (λ a, fk a ∈ key <$> lb) la.
Proof.
  intros Hnd. unfold inner_join.
  induction la as [|a la IH]; [done|].
  rewrite bind_cons, fmap_app, IH, filter_cons. clear IH.
  assert (matching (λ a b, bool_decide (key b = fk a)) lb a
          = filter (λ b, key b = fk a) lb) as ->.
  { unfold matching. apply list_filter_iff. intros b. by rewrite bool_decide_spec. }
  pose proof (at_most_one_with_key key lb (fk a) Hnd) as Hone.
  destruct (filter (λ b, key b = fk a) lb) as [|b [|b' bs]] eqn:Hbs.
  - rewrite decide_False; [done|].
    intros [b [Hb Hin]]%list_elem_of_fmap.
    eapply (filter_nil_not_elem_of _ _ b Hbs); done.
  - rewrite decide_True; [done|].
    assert (b ∈ filter (λ b, key b = fk a) lb) as [Hb Hin]%list_elem_of_filter
      by (rewrite Hbs; left).
    apply list_elem_of_fmap. by exists b.
  - simpl in Hone. lia.
Qed.

(** ** The query of a tags prefetch *)

Lemma remove_dups_replicate_app' {A} `{EqDecision A} (a : A) (n : nat) (l : list A) :
  a ∉ l →
  remove_dups (replicate n a ++ l) = (if n is O then [] else [a]) ++ remove_dups l.
Proof.
  destruct n as [|n]; [done|]. apply remove_dups_replicate_app.
Qed.

(** Grouping rows that come in blocks, one block per key, the keys being
    distinct: one group per block that has a row. *)
Lemma group_by_blocks {K V} `{EqDecision K} (keys : list K) (vals : K → list V) :
  NoDup keys →
  group_by (k ← keys; (λ v, (k, v)) <$> vals k)
  = (λ k, (k, vals k)) <$> filter (λ k, vals k ≠ []) keys.
Proof.
  intros Hnd. unfold group_by.
  assert (∀ k, ((λ v, (k, v)) <$> vals k).*1 = replicate (length (vals k)) k) as Hfst.
  { intros k. induction (vals k) as [|v vs IH]; [done|]. csimpl. by rewrite IH. }
  assert (∀ l : list K, ∀ k, k ∈ (k ← l; (λ v, (k, v)) <$> vals k).*1 → k ∈ l) as Hkeys.
  { intros l k [kv [-> Hkv]]%list_elem_of_fmap.
    apply list_elem_of_bind in Hkv as [k' [Hkv Hk']].
    apply list_elem_of_fmap in Hkv as [v [-> _]]. done. }
  assert (remove_dups (k ← keys; (λ v, (k, v)) <$> vals k).*1
          = filter (λ k, vals k ≠ []) keys) as ->.
  { induction Hnd as [|k keys Hk Hnd IH]; [done|].
    rewrite bind_cons, fmap_app, Hfst, filter_cons.
    rewrite remove_dups_replicate_app' by (intros Hin; by apply Hk, Hkeys).
    rewrite IH. destruct (decide (vals k ≠ [])) as [Hne|He].
    - by destruct (vals k).
    - apply dec_stable in He. by rewrite He. }
  apply list_fmap_ext. intros i k Hi. f_equal.
  apply list_elem_of_lookup_2, list_elem_of_filter in Hi as [_ Hk].
  clear Hfst Hkeys. induction Hnd as [|k' keys Hk' Hnd IH]; [by apply elem_of_nil in Hk|].
  rewrite bind_cons, filter_app, fmap_app.
  destruct (decide (k' = k)) as [->|Hne].
  - rewrite filter_all by (apply Forall_fmap, Forall_forall; by intros v _).
    rewrite filter_none, app_nil_r.
    + rewrite <-list_fmap_compose. simpl. by rewrite list_fmap_id.
    + apply Forall_forall. intros kv Hkv Heq.
      apply list_elem_of_bind in Hkv as [k'' [Hkv Hk'']].
      apply list_elem_of_fmap in Hkv as [v [-> _]]. simpl in Heq. by subst.
  - rewrite filter_none, app_nil_l.
    + apply IH. apply elem_of_cons in Hk as [?|?]; [by subst|done].
    + apply Forall_fmap, Forall_forall. by intros v _.
Qed.

Lemma left_outer_join_NoDup {A B} (on : A → B → bool) (la : list A) (lb : list B) :
  NoDup la → NoDup lb → NoDup (left_outer_join on la lb).
Proof.
  intros Hla Hlb. unfold left_outer_join. apply NoDup_bind; [| |done].
  - intros a1 a2 kv _ _ H1%null_extend_key H2%null_extend_key. congruence.
  - intros a _. unfold null_extend.
    destruct (matching on lb a) as [|b bs] eqn:Hm; [apply NoDup_singleton|].
    rewrite <-Hm. apply NoDup_fmap_2; [by intros b1 b2 [= ->]|].
    by apply NoDup_filter.
Qed.

Lemma COUNT_constant {B C} (f : B → C) (b : B) {D} (l : list D) :
  COUNT (column f ((λ _, Some b) <$> l)) = length l.
Proof.
  unfold COUNT, column, non_null. induction l as [|d l IH]; [done|].
  csimpl. by rewrite IH.
Qed.

Section TagPrefetchFacts.
Variable db : DB.
Implicit Types (self : TagQuerySet.t) (ids : list Z).

(** The rows of the batch in the group of a tag are counted by
    [number_of_posts_among]. *)
Lemma batch_rows_of_tag ids (j : TagRow * option PostTagRow) :
  length (matching (λ j pt, TagQuerySet.in_batch ids j.1 pt) (blog_post_tags db) j)
  = number_of_posts_among db ids (tag_id j.1).
Proof.
  unfold matching, number_of_posts_among. f_equal.
  apply list_filter_iff. intros pt. unfold TagQuerySet.in_batch.
  by rewrite bool_decide_spec.
Qed.

(** The tags the query of a prefetch hands to the post of key [i], for
    one row of [blog_tag]: the tag when it is related to the post. *)
Lemma prefetched_tag_of_row ids i (r : TagRow) :
  unique_post_tags db → i ∈ ids →
  (filter (λ kt, kt.1 = i)
     (omap TagQuerySet.instance_of_batch_group
        ((λ j, (j, matching (λ j pt, TagQuerySet.in_batch ids j.1 pt)
                     (blog_post_tags db) j)) <$>
         filter (λ j, matching (λ j pt, TagQuerySet.in_batch ids j.1 pt)
                        (blog_post_tags db) j ≠ [])
           (null_extend r
              (matching (λ r pt, bool_decide (pt_tag_id pt = tag_id r))
                 (blog_post_tags db) r))))).*2
  = if decide (mkPostTagRow i (tag_id r) ∈ blog_post_tags db)
    then [Tag.mk (Some (tag_id r)) (tag_title r)
            (Some (number_of_posts_among db ids (tag_id r)))]
    else [].
Proof.
  intros Huniq Hi.
  set (onb := λ (j : TagRow * option PostTagRow) pt, TagQuerySet.in_batch ids j.1 pt).
  set (M := matching _ (blog_post_tags db) r).
  assert (∀ pt, pt ∈ M ↔ pt ∈ blog_post_tags db ∧ pt_tag_id pt = tag_id r) as HM.
  { intros pt. subst M. unfold matching. rewrite list_elem_of_filter, bool_decide_spec.
    tauto. }
  assert (filter (λ pt, pt_post_id pt = i) M
          = if decide (mkPostTagRow i (tag_id r) ∈ blog_post_tags db)
            then [mkPostTagRow i (tag_id r)] else []) as Hmine.
  { subst M. unfold matching. rewrite list_filter_filter.
    rewrite (list_filter_iff _ (λ pt, pt = mkPostTagRow i (tag_id r))).
    - destruct (decide (mkPostTagRow i (tag_id r) ∈ blog_post_tags db)) as [Hin|Hout].
      + by apply filter_singleton_NoDup.
      + apply filter_none, Forall_forall. by intros pt Hpt ->.
    - intros [p t]. rewrite bool_decide_spec. simpl. split.
      + by intros [-> ->].
      + by intros [= -> ->]. }
  destruct (decide (matching onb (blog_post_tags db) (r, None) = [])) as [Hnone|Hsome].
  - (* no post of the batch carries the tag *)
    rewrite (filter_none (λ j, matching onb (blog_post_tags db) j ≠ [])).
    + simpl. rewrite decide_False; [done|]. intros Hin.
      assert (mkPostTagRow i (tag_id r) ∈ matching onb (blog_post_tags db) (r, None))
        as Hb.
      { apply list_elem_of_filter. split; [|done].
        unfold onb, TagQuerySet.in_batch. by apply bool_decide_spec. }
      rewrite Hnone in Hb. by apply elem_of_nil in Hb.
    + apply Forall_forall. intros [r' o] Hj. apply null_extend_key in Hj.
      simpl in Hj. subst r'. intros Hne. by apply Hne.
  - rewrite (filter_all (λ j, matching onb (blog_post_tags db) j ≠ []))
      by (apply Forall_forall; intros [r' o] Hj; apply null_extend_key in Hj;
          simpl in Hj; subst r'; exact Hsome).
    destruct M as [|b bs] eqn:HMeq.
    + simpl. rewrite decide_False; [done|]. intros Hin.
      assert (mkPostTagRow i (tag_id r) ∈ @nil PostTagRow) as Hb by by apply HM.
      by apply elem_of_nil in Hb.
    + transitivity
        ((λ _ : PostTagRow,
            Tag.mk (Some (tag_id r)) (tag_title r)
              (Some (number_of_posts_among db ids (tag_id r)))) <$>
         filter (λ pt, pt_post_id pt = i) (b :: bs));
        [|rewrite Hmine; by destruct (decide _)].
      change (null_extend r (b :: bs)) with ((λ b', (r, Some b')) <$> (b :: bs)).
      generalize (b :: bs). clear. intros l.
      induction l as [|pt l IH]; [done|]. csimpl.
      rewrite filter_cons, (filter_cons _ pt l). simpl.
      destruct (decide (pt_post_id pt = i)) as [Hp|Hp]; csimpl; rewrite IH; [|done].
      f_equal. unfold TagQuerySet.instance_of_group. simpl.
      rewrite COUNT_constant.
      do 2 f_equal. apply (batch_rows_of_tag ids (r, Some pt)).
Qed.

(** With unique keys of tags and no pair twice in [blog_post_tags], the
    query of a prefetch that counts the posts hands to a post of the
    batch the tags related to it, each once and in the order of the
    table, with the number of posts of the batch that carry the tag. *)
Lemma prefetched_tags_of_post self ids i :
  pk_unique_tag db → unique_post_tags db → i ∈ ids →
  (filter (λ kt, kt.1 = i)
     (omap TagQuerySet.instance_of_batch_group
        (group_by (TagQuerySet.join_batch db self ids)))).*2
  = (λ r, Tag.mk (Some (tag_id r)) (tag_title r)
            (Some (number_of_posts_among db ids (tag_id r)))) <$>
      filter (λ r, mkPostTagRow i (tag_id r) ∈ blog_post_tags db)
        (TagQuerySet.rows db self).
Proof.
  intros Hpk Huniq Hi.
  unfold TagQuerySet.join_batch, inner_join.
  rewrite group_by_blocks
    by (apply left_outer_join_NoDup; [by apply tag_rows_NoDup|done]).
  unfold TagQuerySet.join_posts, left_outer_join.
  induction (TagQuerySet.rows db self) as [|r rows IH]; [done|].
  rewrite bind_cons, filter_app, fmap_app, omap_app, filter_app, fmap_app.
  rewrite IH, prefetched_tag_of_row by done.
  rewrite (filter_cons _ r rows).
  by destruct (decide (mkPostTagRow i (tag_id r) ∈ blog_post_tags db)).
Qed.

(** The same after the ORDER BY of the query set, up to the order. *)
Lemma select_for_posts_of_post self ids i :
  TagQuerySet.posts_count self = true →
  pk_unique_tag db → unique_post_tags db → i ∈ ids →
  (filter (λ kt, kt.1 = i) (TagQuerySet.select_for_posts db self ids)).*2
  ≡ₚ (λ r, Tag.mk (Some (tag_id r)) (tag_title r)
             (Some (number_of_posts_among db ids (tag_id r)))) <$>
       filter (λ r, mkPostTagRow i (tag_id r) ∈ blog_post_tags db)
         (TagQuerySet.rows db self).
Proof.
  intros Hcount Hpk Huniq Hi.
  rewrite <-(prefetched_tags_of_post self ids i) by done.
  unfold TagQuerySet.select_for_posts. rewrite Hcount.
  apply fmap_Permutation, filter_Permutation.
  destruct (TagQuerySet.order self); done || apply merge_sort_Permutation.
Qed.

End TagPrefetchFacts.

(** ** More about [base_post_queryset] and [popular] *)

Section BaseMore.
Variable db : DB.
Implicit Types (self : PostQuerySet.t).

Lemma base_post_queryset_rows self :
  pk_unique_post db → pk_unique_user db →
  Post.row <$> PostQuerySet.instances db (PostQuerySet.base_post_queryset self)
  ≡ₚ filter (λ p, post_author_id p ∈ user_id <$> auth_user db)
       (PostQuerySet.rows db self).
Proof.
  intros Hpost Huser.
  rewrite instances_of_fresh by done.
  rewrite (own_attributes_row _ _ (prefetch_related_objects_own db _ _)).
  rewrite post_select_rows by by apply post_from_clause_NoDup.
  unfold PostQuerySet.from_clause. simpl.
  assert (∀ l : list (PostRow * UserRow),
            ((λ pu, (pu.1, Some pu.2)) <$> l).*1 = l.*1) as ->
    by (intros l; rewrite <-list_fmap_compose; by apply list_fmap_ext).
  by rewrite (inner_join_on_key post_author_id user_id).
Qed.

(** X9: with unique keys, [base_post_queryset] returns each post of
    the query set whose author exists exactly once, and no other post:
    the join with the likes repeats no post, the join with the authors
    drops the posts without one. *)
Theorem base_post_queryset_returns_each_post_with_an_author_once self :
  pk_unique_post db → pk_unique_user db →
  Post.row <$> PostQuerySet.instances db (PostQuerySet.base_post_queryset self)
  ≡ₚ filter (λ p, post_author_id p ∈ user_id <$> auth_user db)
       (PostQuerySet.rows db self).
Proof. apply base_post_queryset_rows. Qed.

(** The two lookups of [base_post_queryset], with the keys the tags and
    the comments are asked for: those of the instances themselves. *)
Lemma prefetch_tags_then_comments_keys lookups tq cq
    (acc : list Post.t * list statement) :
  let r := foldl (λ acc lookup,
               let r := PostQuerySet.prefetch_one_level db lookup acc.1 in
               (r.1, acc.2 ++ [r.2])) acc
             (lookups ++ [PostQuerySet.Prefetch_tags tq; PostQuerySet.Prefetch_comments cq]) in
  Forall (λ post,
      Post.prefetched_tags post
        = Some (filter (λ kt, kt.1 = Post.id post)
                  (TagQuerySet.select_for_posts db tq (Post.id <$> r.1))).*2 ∧
      Post.prefetched_comments post
        = Some (filter (λ c, bool_decide (Comment.post_id c = Post.id post))
                  (CommentQuerySet.select_for_posts db cq (Post.id <$> r.1))))
    r.1.
Proof.
  intros r. subst r. rewrite foldl_app. simpl.
  set (mid := (foldl _ acc lookups).1).
  set (tagged := (λ post, Post.set_prefetched_tags _ post) <$> mid).
  assert (∀ cs : Post.t → list Comment.t,
            Post.id <$> ((λ post, Post.set_prefetched_comments (cs post) post) <$> tagged)
            = Post.id <$> tagged) as ->
    by (intros cs; rewrite <-list_fmap_compose; by apply list_fmap_ext).
  assert (Post.id <$> tagged = Post.id <$> mid) as Hids
    by (subst tagged; rewrite <-list_fmap_compose; by apply list_fmap_ext).
  apply Forall_fmap, Forall_fmap, Forall_forall. intros post _. simpl.
  by rewrite Hids.
Qed.

Lemma base_post_queryset_caches self :
  let posts := PostQuerySet.instances db (PostQuerySet.base_post_queryset self) in
  Forall (λ post,
      Post.prefetched_tags post
        = Some (filter (λ kt, kt.1 = Post.id post)
                  (TagQuerySet.select_for_posts db
                     (TagQuerySet.annotate_posts_count TagQuerySet.objects)
                     (Post.id <$> posts))).*2 ∧
      Post.prefetched_comments post
        = Some (filter (λ c, bool_decide (Comment.post_id c = Post.id post))
                  (CommentQuerySet.select_for_posts db
                     (CommentQuerySet.select_related CommentQuerySet.objects)
                     (Post.id <$> posts))))
    posts.
Proof.
  intros posts. subst posts. rewrite instances_of_fresh by done.
  unfold PostQuerySet.prefetch_related_objects.
  destruct (PostQuerySet.select db _) as [|post rest]; [constructor|].
  apply (prefetch_tags_then_comments_keys
           (PostQuerySet.prefetch_related_lookups self) _ _ (post :: rest, [])).
Qed.

Lemma base_post_queryset_comments self :
  pk_unique_user db →
  Forall (λ post,
      ∃ comments,
        Post.prefetched_comments post = Some comments ∧
        Comment.row <$> comments
        ≡ₚ filter (λ c, comment_post_id c = Post.id post ∧
                        comment_author_id c ∈ user_id <$> auth_user db)
             (blog_comment db) ∧
        StronglySorted
          (λ a b, comment_published_at (Comment.row a)
                  ≤ comment_published_at (Comment.row b))
          comments)
    (PostQuerySet.instances db (PostQuerySet.base_post_queryset self)).
Proof.
  intros Huser.
  pose proof (base_post_queryset_caches self) as Hcaches. cbv zeta in Hcaches.
  set (posts := PostQuerySet.instances db (PostQuerySet.base_post_queryset self)) in *.
  rewrite Forall_forall in Hcaches |- *. intros post Hin.
  destruct (Hcaches post Hin) as [_ Hcomments].
  eexists. split; [exact Hcomments|]. split.
  - unfold CommentQuerySet.select_for_posts. simpl.
    rewrite order_by_asc_perm.
    set (joined := inner_join _ _ (auth_user db)).
    rewrite (filter_fmap_commute _ _
               (λ cu : CommentRow * UserRow, comment_post_id cu.1 = Post.id post));
      [|intros cu; by rewrite bool_decide_spec].
    rewrite <-list_fmap_compose.
    rewrite (list_fmap_ext _ fst (filter _ joined) (λ _ _ _, eq_refl)).
    rewrite <-(filter_fmap_commute fst (λ c, comment_post_id c = Post.id post)
                 (λ cu : CommentRow * UserRow, comment_post_id cu.1 = Post.id post))
      by done.
    subst joined.
    rewrite (inner_join_on_key comment_author_id user_id) by done.
    rewrite !list_filter_filter.
    assert (Post.id post ∈ Post.id <$> posts) as Hid by by apply list_elem_of_fmap_2.
    rewrite (list_filter_iff _
               (λ c, comment_post_id c = Post.id post ∧
                     comment_author_id c ∈ user_id <$> auth_user db)); [done|].
    intros c. split; [tauto|]. intros [Hc ?]. rewrite Hc. tauto.
  - apply StronglySorted_filter.
    unfold CommentQuerySet.select_for_posts. simpl.
    apply (StronglySorted_merge_sort (asc CommentQuerySet.published_at_key)).
Qed.

(** X10: the comments prefetched for a post by [base_post_queryset] are
    the comments of that post whose author exists, each once, in
    ascending order of [published_at]. *)
Theorem base_post_queryset_prefetches_the_comments_in_order self :
  pk_unique_user db →
  Forall (λ post,
      ∃ comments,
        Post.prefetched_comments post = Some comments ∧
        Comment.row <$> comments
        ≡ₚ filter (λ c, comment_post_id c = Post.id post ∧
                        comment_author_id c ∈ user_id <$> auth_user db)
             (blog_comment db) ∧
        StronglySorted
          (λ a b, comment_published_at (Comment.row a)
                  ≤ comment_published_at (Comment.row b))
          comments)
    (PostQuerySet.instances db (PostQuerySet.base_post_queryset self)).
Proof. apply base_post_queryset_comments. Qed.

(** The tags prefetched for a post are the tags related to it, each with
    the number of posts of the result that carry the tag. *)
Lemma base_post_queryset_tags self :
  pk_unique_tag db → unique_post_tags db →
  let posts := PostQuerySet.instances db (PostQuerySet.base_post_queryset self) in
  Forall (λ post,
      ∃ tags,
        Post.prefetched_tags post = Some tags ∧
        tags
        ≡ₚ (λ r, Tag.mk (Some (tag_id r)) (tag_title r)
                   (Some (number_of_posts_among db (Post.id <$> posts) (tag_id r)))) <$>
             filter (λ r, mkPostTagRow (Post.id post) (tag_id r) ∈ blog_post_tags db)
               (blog_tag db))
    posts.
Proof.
  intros Hpk Huniq posts.
  pose proof (base_post_queryset_caches self) as Hcaches. cbv zeta in Hcaches.
  fold posts in Hcaches.
  rewrite Forall_forall in Hcaches |- *. intros post Hin.
  destruct (Hcaches post Hin) as [Htags _].
  eexists. split; [exact Htags|].
  rewrite (select_for_posts_of_post db) by (done || by apply list_elem_of_fmap_2).
  unfold TagQuerySet.rows. simpl.
  by rewrite (filter_all (λ _, true) (blog_tag db)) by by apply Forall_forall.
Qed.

(** X11: the tags prefetched for a post by [base_post_queryset] are,
    annotation apart, the tags that [blog_post_tags] relates to the post,
    each once, when tags have unique keys and [blog_post_tags] holds no
    pair twice. *)
Theorem base_post_queryset_prefetches_the_tags_of_each_post self :
  pk_unique_tag db → unique_post_tags db →
  Forall (λ post,
      ∃ tags,
        Post.prefetched_tags post = Some tags ∧
        Tag.without_annotation <$> tags
        ≡ₚ Tag.from_db <$>
             filter (λ r, mkPostTagRow (Post.id post) (tag_id r) ∈ blog_post_tags db)
               (blog_tag db))
    (PostQuerySet.instances db (PostQuerySet.base_post_queryset self)).
Proof.
  intros Hpk Huniq.
  eapply Forall_impl; [by apply base_post_queryset_tags|].
  simpl. intros post (tags & Htags & Hperm).
  exists tags. split; [done|].
  rewrite Hperm, <-list_fmap_compose. done.
Qed.

Lemma likers_are_likes (key : Z) :
  unique_post_likes db → number_of_likers db key = number_of_likes db key.
Proof.
  intros Huniq. unfold number_of_likers, number_of_likes.
  rewrite <-(length_fmap like_user_id (filter _ _)).
  apply Permutation_length, NoDup_Permutation.
  - apply NoDup_remove_dups.
  - apply NoDup_fmap_2_strong; [|by apply NoDup_filter].
    intros [p1 u1] [p2 u2] [H1 _]%list_elem_of_filter [H2 _]%list_elem_of_filter.
    simpl in *. congruence.
  - intros u. apply elem_of_remove_dups.
Qed.

Lemma base_post_queryset_counts_the_likes self :
  unique_post_likes db →
  Forall (λ post, Post.likes_count post = Some (number_of_likes db (Post.id post)))
    (PostQuerySet.instances db (PostQuerySet.base_post_queryset self)).
Proof.
  intros Huniq. rewrite instances_of_fresh by done.
  apply (Forall_own_attributes
           (λ a, a.1.2 = Some (number_of_likes db (post_id a.1.1.1))) _ _
           (prefetch_related_objects_own db _ _)).
  eapply Forall_impl; [apply base_post_queryset_select|].
  simpl. intros post [-> _]. by rewrite likers_are_likes.
Qed.

(** C5: over a database with unique keys that holds no pair twice in
    [blog_post_tags], [base_post_queryset] returns the posts of the query
    set whose author exists, each once, and every post it returns
    carries [likes_count] equal to the number of distinct users who like
    it, its author loaded, its tags prefetched, which are the tags
    related to the post, each once and each with a [posts_count]
    annotation (the number of returned posts that carry the tag), and
    its comments prefetched, which are the comments on the post whose
    author exists, each once and each with its author loaded. *)
Theorem base_post_queryset_loads_likes_author_tags_comments self :
  pk_unique_post db → pk_unique_user db → pk_unique_tag db → unique_post_tags db →
  let posts := PostQuerySet.instances db (PostQuerySet.base_post_queryset self) in
  Post.row <$> posts
  ≡ₚ filter (λ p, post_author_id p ∈ user_id <$> auth_user db)
       (PostQuerySet.rows db self) ∧
  Forall (λ post,
      Post.likes_count post = Some (number_of_likers db (Post.id post)) ∧
      (∃ u, Post.author post = Some u ∧ u ∈ auth_user db ∧
            user_id u = post_author_id (Post.row post)) ∧
      (∃ tags,
          Post.prefetched_tags post = Some tags ∧
          tags
          ≡ₚ (λ r, Tag.mk (Some (tag_id r)) (tag_title r)
                     (Some (number_of_posts_among db (Post.id <$> posts) (tag_id r)))) <$>
               filter (λ r, mkPostTagRow (Post.id post) (tag_id r) ∈ blog_post_tags db)
                 (blog_tag db)) ∧
      (∃ comments,
          Post.prefetched_comments post = Some comments ∧
          Comment.row <$> comments
          ≡ₚ filter (λ c, comment_post_id c = Post.id post ∧
                          comment_author_id c ∈ user_id <$> auth_user db)
               (blog_comment db) ∧
          Forall (λ c, ∃ u, Comment.author c = Some u ∧ u ∈ auth_user db ∧
                            user_id u = comment_author_id (Comment.row c))
            comments))
    posts.
Proof.
  intros Hpost Huser Htag Huniq posts.
  split; [by apply base_post_queryset_rows|].
  assert (Forall (λ post,
      Post.likes_count post = Some (number_of_likers db (Post.id post)) ∧
      ∃ u, Post.author post = Some u ∧ u ∈ auth_user db ∧
           user_id u = post_author_id (Post.row post)) posts) as Hquery.
  { subst posts. rewrite instances_of_fresh by done.
    apply (Forall_own_attributes
      (λ a, a.1.2 = Some (number_of_likers db (post_id a.1.1.1)) ∧
            ∃ u, a.1.1.2 = Some u ∧ u ∈ auth_user db ∧ user_id u = post_author_id a.1.1.1)
      _ _ (prefetch_related_objects_own db _ _)).
    apply base_post_queryset_select. }
  pose proof (base_post_queryset_tags self Htag Huniq) as Htags.
  pose proof (base_post_queryset_comments self Huser) as Hcomments.
  pose proof (base_post_queryset_caches self) as Hcaches.
  cbv zeta in Htags, Hcaches. fold posts in Htags, Hcomments, Hcaches.
  rewrite Forall_forall in Hquery, Htags, Hcomments, Hcaches |- *. intros post Hin.
  destruct (Hquery post Hin) as [Hlikes Hauthor].
  destruct (Hcomments post Hin) as (comments & Hcache & Hrows & _).
  split_and!; [done|done|by apply Htags|].
  exists comments. split_and!; [done|done|].
  destruct (Hcaches post Hin) as [_ Hfilter].
  rewrite Hcache in Hfilter. injection Hfilter as ->.
  apply Forall_forall. intros c [_ Hc]%list_elem_of_filter.
  by apply (proj1 (Forall_forall _ _)
              (prefetched_comments_have_author db (Post.id <$> posts))).
Qed.

End BaseMore.

Section PopularPostsOfTheSet.
Variable db : DB.
Implicit Types (self : PostQuerySet.t).

(** The rows of the posts a query yields are the first components of
    its FROM clause, whatever the keys. *)
Lemma post_select_rows_elem self (r : PostRow) :
  r ∈ Post.row <$> PostQuerySet.select db self
  ↔ r ∈ (PostQuerySet.from_clause db self).*1.
Proof.
  unfold PostQuerySet.select.
  set (instances := match PostQuerySet.likes_count self with
                    | Some distinct => PostQuerySet.instance_of_group distinct <$> _
                    | None => _
                    end).
  assert (r ∈ Post.row <$> instances ↔ r ∈ (PostQuerySet.from_clause db self).*1)
    as <-.
  { subst instances. destruct (PostQuerySet.likes_count self) as [distinct|].
    - rewrite <-list_fmap_compose, !list_elem_of_fmap. split.
      + intros [[pu likes] [-> [Hpu _]%elem_of_group_by]].
        apply left_outer_join_keys in Hpu. exists pu. by split.
      + intros [pu [-> Hpu]]. eexists (pu, _). split; [done|].
        apply elem_of_group_by. split; [|done]. by apply left_outer_join_keys.
    - rewrite <-list_fmap_compose, !list_elem_of_fmap. split.
      + intros [pu [-> Hpu]]. by exists pu.
      + intros [pu [-> Hpu]]. by exists pu. }
  destruct (PostQuerySet.order self), (PostQuerySet.likes_count self);
    unfold order_by_desc; done || by rewrite merge_sort_Permutation.
Qed.

(** The rows of the FROM clause of a query set: the rows of [blog_post]
    that its WHERE clause keeps, with an author when the author is
    joined. *)
Lemma from_clause_rows self (r : PostRow) :
  r ∈ (PostQuerySet.from_clause db self).*1
  ↔ r ∈ blog_post db ∧ PostQuerySet.where_ self r ∧
    (PostQuerySet.select_related_author self →
     post_author_id r ∈ user_id <$> auth_user db).
Proof.
  unfold PostQuerySet.from_clause, PostQuerySet.rows.
  destruct (PostQuerySet.select_related_author self);
    rewrite <-list_fmap_compose, list_elem_of_fmap; simpl.
  - split.
    + intros [[p u] [-> (Hp & Hu & Hon)%inner_join_elem]].
      apply list_elem_of_filter in Hp as [Hwhere Hp].
      apply bool_decide_spec in Hon. simpl in *.
      split_and!; [done..|]. intros _. apply list_elem_of_fmap. by exists u.
    + intros (Hr & Hwhere & Hauthor).
      specialize (Hauthor I). apply list_elem_of_fmap in Hauthor as [u [Hid Hu]].
      exists (r, u). split; [done|]. apply inner_join_elem.
      split_and!; [by apply list_elem_of_filter|done|by apply bool_decide_spec].
  - split.
    + intros [p [-> [Hwhere Hp]%list_elem_of_filter]]. by split_and!.
    + intros (Hr & Hwhere & _). exists r. split; [done|].
      by apply list_elem_of_filter.
Qed.

(** C4: [PostQuerySet.popular] returns the posts of the query set it is
    called on, and no other: the rows of [blog_post] that the set keeps
    (with an author, when the set joins the author); each carries
    [likes_count], and [likes_count] never grows from one post of the
    result to a later one.  With unique keys of posts and users every
    post of the set is returned once, and the annotation is the number
    of likes of the post. *)
Theorem post_popular_likes_in_descending_order self :
  let posts := PostQuerySet.instances db (PostQuerySet.popular self) in
  (∀ r, r ∈ Post.row <$> posts
        ↔ r ∈ blog_post db ∧ PostQuerySet.where_ self r ∧
          (PostQuerySet.select_related_author self →
           post_author_id r ∈ user_id <$> auth_user db)) ∧
  Forall (λ post, is_Some (Post.likes_count post)) posts ∧
  StronglySorted
    (λ a b, ∃ m n, Post.likes_count a = Some m ∧ Post.likes_count b = Some n ∧
                   (n ≤ m)%nat)
    posts ∧
  (pk_unique_post db → pk_unique_user db →
   Post.row <$> posts ≡ₚ Post.row <$> PostQuerySet.select db self ∧
   Forall (λ post, Post.likes_count post = Some (number_of_likes db (Post.id post)))
     posts).
Proof.
  intros posts.
  pose proof (prefetch_related_objects_own db
                (PostQuerySet.select db (PostQuerySet.popular self))
                (PostQuerySet.prefetch_related_lookups (PostQuerySet.popular self)))
    as Hown.
  rewrite <-instances_of_fresh in Hown by done. fold posts in Hown.
  set (selected := PostQuerySet.select db (PostQuerySet.popular self)) in *.
  assert (Forall (λ post, is_Some (Post.likes_count post)) selected) as Hsome.
  { subst selected. rewrite post_popular_select, order_by_desc_perm.
    apply Forall_fmap, Forall_forall. intros g _. by eexists. }
  split_and!.
  - intros r. rewrite (own_attributes_row _ _ Hown). subst selected.
    rewrite post_select_rows_elem. apply (from_clause_rows self r).
  - by apply (Forall_own_attributes (λ a, is_Some a.1.2) selected posts).
  - apply (StronglySorted_of_fmap Post.own_attributes _
             (λ a b, ∃ m n, a.1.2 = Some m ∧ b.1.2 = Some n ∧ (n ≤ m)%nat));
      [done|].
    rewrite Hown.
    apply (StronglySorted_fmap _
             (λ a b, ∃ m n, Post.likes_count a = Some m ∧
                            Post.likes_count b = Some n ∧ (n ≤ m)%nat));
      [done|].
    apply (StronglySorted_strengthen (desc PostQuerySet.likes_count_key) _
             (λ post, is_Some (Post.likes_count post))); [|exact Hsome|].
    + intros a b [m Hm] [n Hn]. unfold desc, PostQuerySet.likes_count_key.
      rewrite Hm, Hn. simpl. intros Hle. exists m, n. split_and!; [done..|lia].
    + apply order_by_desc_sorted.
  - intros Hpost Huser. split.
    + rewrite (own_attributes_row _ _ Hown). subst selected.
      by rewrite !post_select_rows by by apply post_from_clause_NoDup.
    + apply (Forall_own_attributes
               (λ a, a.1.2 = Some (number_of_likes db (post_id a.1.1.1)))
               selected posts); [done|].
      subst selected. rewrite post_popular_select, order_by_desc_perm.
      rewrite post_groups by by apply post_from_clause_NoDup.
      apply Forall_fmap, Forall_forall. by intros pu _.
Qed.

End PopularPostsOfTheSet.

(** ** What [posts_count] of a prefetched tag counts *)

Lemma filter_and_length {A} (P Q : A → Prop) `{∀ x, Decision (P x)}
    `{∀ x, Decision (Q x)} (l : list A) :
  (length (filter (λ x, P x ∧ Q x) l) ≤ length (filter P l))%nat ∧
  (length (filter (λ x, P x ∧ Q x) l) = length (filter P l)
   ↔ Forall (λ x, P x → Q x) l).
Proof.
  induction l as [|x l [IHle IHeq]]; [by split; [|split; [constructor|]]|].
  rewrite !filter_cons, Forall_cons.
  destruct (decide (P x)) as [HP|HP]; [destruct (decide (Q x)) as [HQ|HQ]|].
  - rewrite decide_True by done. simpl. split; [lia|].
    rewrite <-IHeq. split; [intros [= ?]; by split|intros [_ ->]; done].
  - rewrite decide_False by tauto. simpl. split; [lia|]. split; [lia|tauto].
  - rewrite decide_False by tauto. split; [done|]. rewrite <-IHeq. tauto.
Qed.

Section PrefetchedPostsCount.
Variable db : DB.
Implicit Types (self : PostQuerySet.t).

Lemma posts_among_of_tag (ids : list Z) (key : Z) :
  pk_unique_post db → unique_post_tags db → fk_post_tags_post db →
  (number_of_posts_among db ids key ≤ number_of_posts db key)%nat ∧
  (number_of_posts_among db ids key = number_of_posts db key
   ↔ Forall (λ pt, pt_tag_id pt = key → pt_post_id pt ∈ ids) (blog_post_tags db)).
Proof.
  intros Hpost Huniq Hfk. rewrite <-(tag_rows_are_posts db key) by done.
  apply (filter_and_length (λ pt, pt_tag_id pt = key) (λ pt, pt_post_id pt ∈ ids)).
Qed.

(** X19: the [posts_count] that [base_post_queryset] puts on a
    prefetched tag counts the posts of the result that carry the tag,
    not all the posts of the tag: over a database that keeps the
    constraints of the schema it is at least one and at most the number
    of posts related to the tag, and it is that number exactly when
    every post related to the tag is among the posts returned. *)
Theorem base_post_queryset_counts_the_posts_of_the_result self :
  pk_unique_post db → pk_unique_tag db → unique_post_tags db → fk_post_tags_post db →
  let posts := PostQuerySet.instances db (PostQuerySet.base_post_queryset self) in
  Forall (λ post,
      ∃ tags,
        Post.prefetched_tags post = Some tags ∧
        Forall (λ tag,
            ∃ key n,
              Tag.pk tag = Some key ∧ Tag.posts_count tag = Some n ∧
              (1 ≤ n ≤ number_of_posts db key)%nat ∧
              (n = number_of_posts db key
               ↔ Forall (λ pt, pt_tag_id pt = key → pt_post_id pt ∈ Post.id <$> posts)
                   (blog_post_tags db)))
          tags)
    posts.
Proof.
  intros Hpost Htag Huniq Hfk posts.
  pose proof (base_post_queryset_tags db self Htag Huniq) as Htags.
  cbv zeta in Htags. fold posts in Htags.
  rewrite Forall_forall in Htags |- *. intros post Hin.
  destruct (Htags post Hin) as (tags & Hcache & Hperm).
  exists tags. split; [done|]. rewrite Hperm.
  apply Forall_fmap, Forall_forall. intros r [Hrel _]%list_elem_of_filter.
  exists (tag_id r), (number_of_posts_among db (Post.id <$> posts) (tag_id r)).
  destruct (posts_among_of_tag (Post.id <$> posts) (tag_id r)) as [Hle Heq]; [done..|].
  split_and!; [done|done| |done|done].
  unfold number_of_posts_among.
  assert (mkPostTagRow (Post.id post) (tag_id r)
          ∈ filter (λ pt, pt_tag_id pt = tag_id r ∧ pt_post_id pt ∈ Post.id <$> posts)
              (blog_post_tags db)) as Hmine.
  { apply list_elem_of_filter. split; [|done]. simpl. split; [done|].
    by apply list_elem_of_fmap_2. }
  destruct (filter _ (blog_post_tags db)); [by apply elem_of_nil in Hmine|simpl; lia].
Qed.

End PrefetchedPostsCount.

(** ** Deletions and the constraints *)

(** A foreign key survives when rows are taken out on its side, and on
    the side of its target as long as the targets of the rows that stay
    are kept. *)
Lemma fk_filter_rows {R T} (fk : R → Z) (key : T → Z) (P : R → Prop)
    `{∀ r, Decision (P r)} (rows : list R) (targets : list T) :
  Forall (λ r, fk r ∈ key <$> targets) rows →
  Forall (λ r, fk r ∈ key <$> targets) (filter P rows).
Proof.
  rewrite !Forall_forall. intros Hfk r [_ Hr]%list_elem_of_filter. by apply Hfk.
Qed.

Lemma fk_filter_both {R T} (fk : R → Z) (key : T → Z) (P : R → Prop) (Q : T → Prop)
    `{∀ r, Decision (P r)} `{∀ t, Decision (Q t)} (rows : list R) (targets : list T) :
  (∀ r t, P r → key t = fk r → Q t) →
  Forall (λ r, fk r ∈ key <$> targets) rows →
  Forall (λ r, fk r ∈ key <$> filter Q targets) (filter P rows).
Proof.
  rewrite !Forall_forall. intros HPQ Hfk r [HP Hr]%list_elem_of_filter.
  pose proof (Hfk r Hr) as Hin. apply list_elem_of_fmap in Hin as [t [Heq Ht]].
  apply list_elem_of_fmap. exists t. split; [done|].
  apply list_elem_of_filter. split; [|done]. by eapply HPQ.
Qed.

Lemma post_delete_result (db : DB) (key : Z) :
  Post.delete_with Post.Comment_post_on_delete db key
  = inr (mkDB (auth_user db)
              (filter (λ p, post_id p ≠ key) (blog_post db))
              (filter (λ l, like_post_id l ≠ key) (blog_post_likes db))
              (filter (λ pt, pt_post_id pt ≠ key) (blog_post_tags db))
              (blog_tag db)
              (filter (λ c, comment_post_id c ≠ key) (blog_comment db))
              (blog_tag_sequence db)).
Proof. reflexivity. Qed.

Lemma post_delete_consistent (db : DB) (key : Z) :
  consistent db →
  consistent (mkDB (auth_user db)
                (filter (λ p, post_id p ≠ key) (blog_post db))
                (filter (λ l, like_post_id l ≠ key) (blog_post_likes db))
                (filter (λ pt, pt_post_id pt ≠ key) (blog_post_tags db))
                (blog_tag db)
                (filter (λ c, comment_post_id c ≠ key) (blog_comment db))
                (blog_tag_sequence db)).
Proof.
  intros [].
  constructor; red; simpl;
    try done;
    try (by apply NoDup_fmap_filter);
    try (by apply NoDup_filter);
    try (by apply fk_filter_rows);
    try (apply fk_filter_both; [|done]; intros r t Hr Ht; congruence).
Qed.

(** X13: deleting a post of a consistent database succeeds and leaves a
    consistent database: the post is gone with its likes and its
    relations to tags, the other posts, likes and relations stay, and
    users and tags are untouched. *)
Theorem post_delete_keeps_the_database_consistent (db : DB) (post : Post.t) :
  consistent db →
  ∃ db',
    Post.delete db post = inr db' ∧
    consistent db' ∧
    (∀ p, p ∈ blog_post db' ↔ p ∈ blog_post db ∧ post_id p ≠ Post.id post) ∧
    (∀ l, l ∈ blog_post_likes db' ↔
          l ∈ blog_post_likes db ∧ like_post_id l ≠ Post.id post) ∧
    (∀ pt, pt ∈ blog_post_tags db' ↔
           pt ∈ blog_post_tags db ∧ pt_post_id pt ≠ Post.id post) ∧
    auth_user db' = auth_user db ∧
    blog_tag db' = blog_tag db.
Proof.
  intros Hdb. unfold Post.delete. rewrite post_delete_result.
  eexists. split; [done|]. split; [by apply post_delete_consistent|].
  simpl. split_and!; [..|done|done]; intros x; rewrite list_elem_of_filter; tauto.
Qed.

Lemma NoDup_fmap_eq {A B} (f : A → B) (l : list A) (x y : A) :
  NoDup (f <$> l) → x ∈ l → y ∈ l → f x = f y → x = y.
Proof.
  induction l as [|a l IH]; csimpl; [by intros _ ?%elem_of_nil|].
  intros [Ha Hnd]%NoDup_cons [->|Hx]%elem_of_cons [->|Hy]%elem_of_cons Heq;
    [done| | |by apply IH].
  - destruct Ha. rewrite Heq. by apply list_elem_of_fmap_2.
  - destruct Ha. rewrite <-Heq. by apply list_elem_of_fmap_2.
Qed.

(** Deleting several posts takes out the posts of these keys and what
    hangs on them. *)
Lemma delete_posts_result (db : DB) (keys : list Z) :
  User.delete_posts db keys
  = inr (mkDB (auth_user db)
              (filter (λ p, post_id p ∉ keys) (blog_post db))
              (filter (λ l, like_post_id l ∉ keys) (blog_post_likes db))
              (filter (λ pt, pt_post_id pt ∉ keys) (blog_post_tags db))
              (blog_tag db)
              (filter (λ c, comment_post_id c ∉ keys) (blog_comment db))
              (blog_tag_sequence db)).
Proof.
  unfold User.delete_posts. revert db.
  induction keys as [|key keys IH]; intros db.
  - simpl. destruct db. simpl. f_equal. f_equal;
      symmetry; apply filter_all, Forall_forall; intros x _; apply not_elem_of_nil.
  - simpl. rewrite IH. unfold Post.without_post. simpl. f_equal.
    f_equal; rewrite list_filter_filter; apply list_filter_iff; intros x;
      rewrite not_elem_of_cons; tauto.
Qed.

Lemma delete_posts_consistent (db : DB) (keys : list Z) :
  consistent db →
  consistent (mkDB (auth_user db)
                (filter (λ p, post_id p ∉ keys) (blog_post db))
                (filter (λ l, like_post_id l ∉ keys) (blog_post_likes db))
                (filter (λ pt, pt_post_id pt ∉ keys) (blog_post_tags db))
                (blog_tag db)
                (filter (λ c, comment_post_id c ∉ keys) (blog_comment db))
                (blog_tag_sequence db)).
Proof.
  intros [].
  constructor; red; simpl;
    try done;
    try (by apply NoDup_fmap_filter);
    try (by apply NoDup_filter);
    try (by apply fk_filter_rows);
    try (apply fk_filter_both; [|done]; intros r t Hr Ht; congruence).
Qed.

(** Taking a user out with the comments and likes of the user, once no
    post of the user is left. *)
Lemma user_removal_consistent (db : DB) (key : Z) :
  consistent db →
  Forall (λ p, post_author_id p ≠ key) (blog_post db) →
  consistent (mkDB (filter (λ u, user_id u ≠ key) (auth_user db))
                (blog_post db)
                (filter (λ l, like_user_id l ≠ key) (blog_post_likes db))
                (blog_post_tags db)
                (blog_tag db)
                (filter (λ c, comment_author_id c ≠ key) (blog_comment db))
                (blog_tag_sequence db)).
Proof.
  intros [] Hposts.
  constructor; red; simpl;
    try done;
    try (by apply NoDup_fmap_filter);
    try (by apply NoDup_filter);
    try (by apply fk_filter_rows);
    try (apply fk_filter_both; [|done]; intros r t Hr Ht; congruence).
  rewrite <-(filter_all (λ p, post_author_id p ≠ key) (blog_post db)) by done.
  apply fk_filter_both; [|done]. intros r t Hr Ht; congruence.
Qed.

(** X14: deleting a user of a consistent database succeeds and leaves a
    consistent database: gone are the user, the posts of the user, the
    comments the user wrote and the comments on the posts of the user,
    whoever wrote them; tags are untouched. *)
Theorem user_delete_cascades_to_posts_and_comments (db : DB) (key : Z) :
  consistent db →
  ∃ db',
    User.delete db key = inr db' ∧
    consistent db' ∧
    (∀ u, u ∈ auth_user db' ↔ u ∈ auth_user db ∧ user_id u ≠ key) ∧
    (∀ p, p ∈ blog_post db' ↔ p ∈ blog_post db ∧ post_author_id p ≠ key) ∧
    (∀ c, c ∈ blog_comment db' ↔
          c ∈ blog_comment db ∧ comment_author_id c ≠ key ∧
          ∀ p, p ∈ blog_post db → post_id p = comment_post_id c →
               post_author_id p ≠ key) ∧
    blog_tag db' = blog_tag db.
Proof.
  intros Hdb. unfold User.delete, User.delete_with, Post_author_on_delete,
    Comment_author_on_delete.
  rewrite delete_posts_result. simpl.
  set (own := post_id <$> filter (λ p, post_author_id p = key) (blog_post db)).
  assert (∀ p, p ∈ blog_post db → post_id p ∉ own ↔ post_author_id p ≠ key) as Hown.
  { intros p Hp. subst own. rewrite list_elem_of_fmap. split.
    - intros Hout Hauthor. apply Hout. exists p. split; [done|].
      by apply list_elem_of_filter.
    - intros Hauthor [q [Hid [Hq Hin]%list_elem_of_filter]].
      assert (p = q) as ->; [|done].
      apply (NoDup_fmap_eq post_id (blog_post db)); [by destruct Hdb|done..]. }
  eexists. split; [done|]. simpl. split_and!.
  - apply (user_removal_consistent
             (mkDB (auth_user db)
                (filter (λ p, post_id p ∉ own) (blog_post db))
                (filter (λ l, like_post_id l ∉ own) (blog_post_likes db))
                (filter (λ pt, pt_post_id pt ∉ own) (blog_post_tags db))
                (blog_tag db)
                (filter (λ c, comment_post_id c ∉ own) (blog_comment db))
                (blog_tag_sequence db)) key).
    + by apply delete_posts_consistent.
    + simpl. apply Forall_forall. intros p [Hout Hp]%list_elem_of_filter.
      by apply Hown.
  - intros u. rewrite list_elem_of_filter. tauto.
  - intros p. rewrite list_elem_of_filter. split.
    + intros [Hout Hp]. split; [done|]. by apply Hown.
    + intros [Hp Hauthor]. split; [|done]. by apply Hown.
  - intros c. rewrite !list_elem_of_filter. split.
    + intros (Hauthor & Hout & Hc). split_and!; [done..|].
      intros p Hp Hid. apply Hown; [done|]. by rewrite Hid.
    + intros (Hc & Hauthor & Hposts). split_and!; [done| |done].
      intros [p [Hid [Hp Hin]%list_elem_of_filter]]%list_elem_of_fmap.
      by apply (Hposts p).
  - done.
Qed.

(** ** The two counts of likes *)

(** X12: when [blog_post_likes] holds no pair twice and keys are
    unique, the distinct count of [base_post_queryset] and the plain
    count of [popular] agree: a post has the same [likes_count] from
    both, the number of its likes. *)
Theorem base_post_queryset_and_popular_count_the_same_likes (db : DB)
    (self self' : PostQuerySet.t) :
  unique_post_likes db → pk_unique_post db → pk_unique_user db →
  Forall (λ p,
      Post.likes_count p = Some (number_of_likes db (Post.id p)) ∧
      Forall (λ q, Post.id p = Post.id q → Post.likes_count p = Post.likes_count q)
        (PostQuerySet.instances db (PostQuerySet.popular self')))
    (PostQuerySet.instances db (PostQuerySet.base_post_queryset self)).
Proof.
  intros Huniq Hpost Huser.
  destruct (popular_instances_by_likes db self' Hpost Huser) as (Hlikes & _ & _).
  eapply Forall_impl; [by apply base_post_queryset_counts_the_likes|].
  simpl. intros p Hlp. split; [done|].
  eapply Forall_impl; [exact Hlikes|].
  simpl. intros q Hlq Hid. by rewrite Hlp, Hlq, Hid.
Qed.

(** ** The default ordering *)

Lemma prefetch_nothing (db : DB) (instances : list Post.t) :
  (PostQuerySet.prefetch_related_objects db instances []).1 = instances.
Proof. by destruct instances. Qed.

(** X15: [Post.objects.filter(...)] yields the posts that satisfy the
    condition, each once, the most recently published first, with no
    [likes_count] and no [comments_count] on them. *)
Theorem post_objects_filter_lists_the_newest_first (db : DB) (cond : PostRow → bool) :
  let posts :=
    PostQuerySet.instances db (PostQuerySet.filter_ cond PostQuerySet.objects) in
  Post.row <$> posts ≡ₚ filter (λ p, cond p) (blog_post db) ∧
  StronglySorted
    (λ a b, post_published_at (Post.row b) ≤ post_published_at (Post.row a))
    posts ∧
  Forall (λ post, Post.likes_count post = None ∧ Post.comments_count post = None)
    posts.
Proof.
  intros posts. subst posts. rewrite instances_of_fresh by done. simpl.
  rewrite prefetch_nothing. unfold PostQuerySet.select. simpl. split_and!.
  - rewrite order_by_desc_perm. unfold PostQuerySet.from_clause, PostQuerySet.rows.
    simpl. rewrite <-!list_fmap_compose.
    rewrite (list_fmap_ext _ (λ p, p) _ (λ _ _ _, eq_refl)), list_fmap_id.
    done.
  - apply (order_by_desc_sorted PostQuerySet.published_at_key).
  - rewrite order_by_desc_perm. apply Forall_fmap, Forall_forall. by intros pu _.
Qed.

(** ** URLs *)

(** X16: [Tag.get_absolute_url] raises [AttributeError] for every tag
    and whatever the URL patterns: it reads [self.slug], and a tag has no
    such attribute. *)
Theorem tag_get_absolute_url_raises_AttributeError
    (reverse_with_prefix : string → list Urls.value → option string) (self : Tag.t) :
  Urls.Tag_get_absolute_url reverse_with_prefix self
  = inl (Urls.AttributeError "Tag" "slug").
Proof.
  unfold Urls.Tag_get_absolute_url, Urls.Tag_getattr.
  rewrite decide_False by (by intros [?|?]).
  rewrite decide_False by done.
  destruct (Tag.posts_count self); [by rewrite decide_False|done].
Qed.

(** X17: [Post.get_absolute_url] does not depend on the post: the
    dictionary given as [args] is unpacked into its key, so that
    [reverse] gets the string ["slug"] and not the slug of the post. *)
Theorem post_get_absolute_url_does_not_use_the_slug
    (reverse_with_prefix : string → list Urls.value → option string) (p q : Post.t) :
  Urls.Post_get_absolute_url reverse_with_prefix p
  = Urls.Post_get_absolute_url reverse_with_prefix q ∧
  Urls.Post_get_absolute_url reverse_with_prefix p
  = reverse_with_prefix "post_detail" [Urls.Str "slug"].
Proof. done. Qed.

(** ** [__str__] of a comment *)

Lemma get_stored {R} (pk : R → Z) (rows : list R) (r : R) :
  NoDup (pk <$> rows) → r ∈ rows → Str.get pk rows (pk r) = Some r.
Proof.
  intros Hnd Hr. unfold Str.get.
  assert (r ∈ filter (λ r', pk r' = pk r) rows) as Hin by by apply list_elem_of_filter.
  destruct (filter (λ r', pk r' = pk r) rows) as [|r0 rest] eqn:Hf;
    [by apply elem_of_nil in Hin|].
  simpl. f_equal.
  assert (r0 ∈ filter (λ r', pk r' = pk r) rows) as [Heq Hr0]%list_elem_of_filter
    by (rewrite Hf; left).
  by apply (NoDup_fmap_eq pk rows).
Qed.

(** X18: in a consistent database [Comment.__str__] of every stored
    comment is the username of its author, [" under "], and the title of
    its post, whether or not the author has been loaded with the
    comment. *)
Theorem comment_str_names_the_author_and_the_post (db : DB) :
  consistent db →
  Forall (λ c,
      ∃ user post,
        user ∈ auth_user db ∧ user_id user = comment_author_id c ∧
        post ∈ blog_post db ∧ post_id post = comment_post_id c ∧
        Str.Comment_str db (Comment.mk c None)
          = Some (username user +:+ " under " +:+ post_title post) ∧
        Str.Comment_str db (Comment.mk c (Some user))
          = Some (username user +:+ " under " +:+ post_title post))
    (blog_comment db).
Proof.
  intros Hdb. apply Forall_forall. intros c Hc.
  pose proof (proj1 (Forall_forall _ _) (comments_have_authors db Hdb) c Hc) as Hauthor.
  pose proof (proj1 (Forall_forall _ _) (comments_have_posts db Hdb) c Hc) as Hpost.
  apply list_elem_of_fmap in Hauthor as [user [Huser Hin_user]].
  apply list_elem_of_fmap in Hpost as [post [Hpost Hin_post]].
  exists user, post. unfold Str.Comment_str. simpl.
  rewrite Huser, Hpost.
  rewrite (get_stored user_id) by (done || apply Hdb).
  rewrite (get_stored post_id) by (done || apply Hdb).
  by split_and!.
Qed.

(** ** The further theorems on the sample blog *)

Lemma sample_is_consistent : consistent Sample.db.
Proof. constructor; red; by_computation. Defined.

Lemma post_popular_likes_in_descending_order_witness :
  let posts := PostQuerySet.instances Sample.db (PostQuerySet.popular PostQuerySet.objects) in
  pk_unique_post Sample.db ∧ pk_unique_user Sample.db ∧
  Post.id <$> posts = [2; 3; 1] ∧
  Post.row <$> posts ≡ₚ Post.row <$> PostQuerySet.select Sample.db PostQuerySet.objects ∧
  Forall (λ post, Post.likes_count post
                  = Some (number_of_likes Sample.db (Post.id post)))
    posts.
Proof.
  cbv zeta.
  destruct (post_popular_likes_in_descending_order Sample.db PostQuerySet.objects)
    as (_ & _ & _ & Hcounted).
  split_and!; [apply sample_keys_are_unique..|by vm_compute| |];
    apply Hcounted; apply sample_keys_are_unique.
Defined.

Lemma base_post_queryset_loads_likes_author_tags_comments_witness :
  let posts := PostQuerySet.instances Sample.db
                 (PostQuerySet.base_post_queryset PostQuerySet.objects) in
  pk_unique_post Sample.db ∧ pk_unique_user Sample.db ∧
  pk_unique_tag Sample.db ∧ unique_post_tags Sample.db ∧
  Post.row <$> posts
  ≡ₚ filter (λ p, post_author_id p ∈ user_id <$> auth_user Sample.db)
       (PostQuerySet.rows Sample.db PostQuerySet.objects) ∧
  Forall (λ post,
      Post.likes_count post = Some (number_of_likers Sample.db (Post.id post)) ∧
      (∃ u, Post.author post = Some u ∧ u ∈ auth_user Sample.db ∧
            user_id u = post_author_id (Post.row post)) ∧
      (∃ tags,
          Post.prefetched_tags post = Some tags ∧
          tags
          ≡ₚ (λ r, Tag.mk (Some (tag_id r)) (tag_title r)
                     (Some (number_of_posts_among Sample.db (Post.id <$> posts)
                              (tag_id r)))) <$>
               filter (λ r, mkPostTagRow (Post.id post) (tag_id r)
                            ∈ blog_post_tags Sample.db)
                 (blog_tag Sample.db)) ∧
      (∃ comments,
          Post.prefetched_comments post = Some comments ∧
          Comment.row <$> comments
          ≡ₚ filter (λ c, comment_post_id c = Post.id post ∧
                          comment_author_id c ∈ user_id <$> auth_user Sample.db)
               (blog_comment Sample.db) ∧
          Forall (λ c, ∃ u, Comment.author c = Some u ∧ u ∈ auth_user Sample.db ∧
                            user_id u = comment_author_id (Comment.row c))
            comments))
    posts.
Proof.
  cbv zeta.
  split_and!;
    [apply sample_is_consistent|apply sample_is_consistent
    |apply sample_is_consistent|apply sample_is_consistent| |];
    apply (base_post_queryset_loads_likes_author_tags_comments Sample.db
             PostQuerySet.objects);
    apply sample_is_consistent.
Defined.

Lemma tag_clean_lowercases_the_title_witness :
  ∃ db',
    Tag.save Sample.db (Tag.clean (λ s, s) (Tag.mk None "Rust" None))
    = inr (db', Tag.mk (Some 31) "rust" None) ∧
    mkTagRow 31 "rust" ∈ blog_tag db'.
Proof.
  pose proof (tag_clean_lowercases_the_title (λ s, s) Sample.db
                (Tag.mk None "Rust" None)) as [Hsaved _].
  destruct (Tag.save Sample.db (Tag.clean (λ s, s) (Tag.mk None "Rust" None)))
    as [e|[db' saved]] eqn:Hsave; [by vm_compute in Hsave|].
  destruct Hsaved as (key & -> & Hrow & [Hkey|[_ ->]]); [done|].
  by exists db'.
Defined.

Lemma tag_clean_is_idempotent_witness :
  let tag := Tag.mk None "Django" None in
  Python.isascii (Tag.title tag) = true ∧
  Tag.clean (λ s, s) (Tag.clean (λ s, s) tag) = Tag.clean (λ s, s) tag ∧
  (Tag.clean (λ s, s) tag = tag
   ↔ Forall (λ c, ¬ is_upper c) (String.list_ascii_of_string (Tag.title tag))) ∧
  String.length (Tag.title (Tag.clean (λ s, s) tag)) = String.length (Tag.title tag) ∧
  Python.isascii (Tag.title (Tag.clean (λ s, s) tag)) = true ∧
  Tag.pk (Tag.clean (λ s, s) tag) = Tag.pk tag ∧
  Tag.posts_count (Tag.clean (λ s, s) tag) = Tag.posts_count tag.
Proof.
  cbv zeta. split; [reflexivity|].
  apply (tag_clean_is_idempotent (λ s, s) (Tag.mk None "Django" None)).
  reflexivity.
Defined.

Lemma tag_titles_that_differ_in_case_collide_witness :
  ∃ db1 saved,
    Python.lower (λ s, s) "Rust" = Python.lower (λ s, s) "RUST" ∧
    Tag.save Sample.db (Tag.clean (λ s, s) (Tag.mk None "Rust" None))
    = inr (db1, saved) ∧
    Tag.save db1 (Tag.clean (λ s, s) (Tag.mk None "RUST" None)) = inl IntegrityError.
Proof.
  eexists _, _. split; [reflexivity|]. split; [vm_compute; reflexivity|].
  etransitivity;
    [eapply (tag_titles_that_differ_in_case_collide (λ s, s) Sample.db _ "Rust" "RUST");
       [reflexivity|vm_compute; reflexivity]
    |vm_compute; reflexivity].
Defined.

Lemma tag_save_keeps_keys_and_titles_unique_witness :
  ∃ db' saved,
    pk_unique_tag Sample.db ∧ unique_tag_title Sample.db ∧
    Tag.save Sample.db (Tag.mk (Some 20) "sqlite" None) = inr (db', saved) ∧
    pk_unique_tag db' ∧ unique_tag_title db' ∧
    mkTagRow 20 "sqlite" ∈ blog_tag db'.
Proof.
  eexists _, _.
  assert (pk_unique_tag Sample.db) as Hpk by apply sample_is_consistent.
  assert (unique_tag_title Sample.db) as Htitle by apply sample_is_consistent.
  split; [exact Hpk|]. split; [exact Htitle|].
  split; [vm_compute; reflexivity|].
  destruct (tag_save_keeps_keys_and_titles_unique Sample.db _
              (Tag.mk (Some 20) "sqlite" None) _ Hpk Htitle eq_refl)
    as (Hpk' & Htitle' & key & Hsaved & Hrow & _).
  split; [exact Hpk'|]. split; [exact Htitle'|].
  injection Hsaved as <-. exact Hrow.
Defined.

Lemma fetch_with_comments_count_stops_at_the_first_missing_post_witness :
  pk_unique_post Stale.db_without_first ∧
  PostQuerySet.result
    (PostQuerySet.fetch_with_comments_count Stale.db_without_first Sample.evaluated)
    = inl (Python.KeyError 1) ∧
  ∃ done post rest,
    PostQuerySet.instances Stale.db_without_first Sample.evaluated
      = done ++ post :: rest ∧
    Post.id post = 1 ∧
    (1 ∉ post_id <$> blog_post Stale.db_without_first) ∧
    Forall (λ p, Post.id p ∈ post_id <$> blog_post Stale.db_without_first) done ∧
    PostQuerySet.result_cache
      (PostQuerySet.self_after
         (PostQuerySet.fetch_with_comments_count Stale.db_without_first Sample.evaluated))
    = Some (((λ p, Post.set_comments_count
                     (number_of_comments Stale.db_without_first (Post.id p)) p)
               <$> done) ++ post :: rest).
Proof.
  assert (pk_unique_post Stale.db_without_first) as Hpk
    by (unfold pk_unique_post; by_computation).
  assert (PostQuerySet.result
            (PostQuerySet.fetch_with_comments_count Stale.db_without_first
               Sample.evaluated)
          = inl (Python.KeyError 1)) as Hraised by (vm_compute; reflexivity).
  split; [exact Hpk|]. split; [exact Hraised|].
  exact (fetch_with_comments_count_stops_at_the_first_missing_post
           Stale.db_without_first Sample.evaluated 1 Hpk Hraised).
Defined.

Lemma fetch_with_comments_count_again_changes_nothing_witness :
  ∃ qs,
    PostQuerySet.result
      (PostQuerySet.fetch_with_comments_count Sample.db PostQuerySet.objects) = inr qs ∧
    PostQuerySet.result (PostQuerySet.fetch_with_comments_count Sample.db qs) = inr qs ∧
    PostQuerySet.self_after (PostQuerySet.fetch_with_comments_count Sample.db qs) = qs.
Proof.
  destruct (PostQuerySet.result
              (PostQuerySet.fetch_with_comments_count Sample.db PostQuerySet.objects))
    as [e|qs] eqn:Hresult; [by vm_compute in Hresult|].
  exists qs. split; [reflexivity|].
  exact (fetch_with_comments_count_again_changes_nothing Sample.db
           PostQuerySet.objects qs Hresult).
Defined.

Lemma popular_then_fetch_with_comments_count_witness :
  pk_unique_post Sample.db ∧ pk_unique_user Sample.db ∧
  let o := PostQuerySet.fetch_with_comments_count Sample.db
             (PostQuerySet.popular PostQuerySet.objects) in
  PostQuerySet.result o = inr (PostQuerySet.self_after o) ∧
  ∃ posts,
    PostQuerySet.result_cache (PostQuerySet.self_after o) = Some posts ∧
    Post.row <$> posts ≡ₚ Post.row <$> PostQuerySet.select Sample.db PostQuerySet.objects ∧
    Forall (λ post,
        Post.likes_count post = Some (number_of_likes Sample.db (Post.id post)) ∧
        Post.comments_count post = Some (number_of_comments Sample.db (Post.id post)))
      posts ∧
    StronglySorted
      (λ a b, (number_of_likes Sample.db (Post.id b)
               ≤ number_of_likes Sample.db (Post.id a))%nat)
      posts.
Proof.
  split_and!; [apply sample_is_consistent|apply sample_is_consistent|].
  apply (popular_then_fetch_with_comments_count Sample.db PostQuerySet.objects);
    apply sample_is_consistent.
Defined.

Lemma tag_popular_puts_a_most_used_tag_first_witness :
  pk_unique_tag Sample.db ∧ pk_unique_post Sample.db ∧
  unique_post_tags Sample.db ∧ fk_post_tags_post Sample.db ∧
  match TagQuerySet.select Sample.db (TagQuerySet.popular TagQuerySet.objects) with
  | [] => TagQuerySet.rows Sample.db TagQuerySet.objects = []
  | first :: _ =>
      ∃ r, r ∈ TagQuerySet.rows Sample.db TagQuerySet.objects ∧
           Tag.pk first = Some (tag_id r) ∧
           Tag.posts_count first = Some (number_of_posts Sample.db (tag_id r)) ∧
           ∀ r', r' ∈ TagQuerySet.rows Sample.db TagQuerySet.objects →
                 (number_of_posts Sample.db (tag_id r')
                  ≤ number_of_posts Sample.db (tag_id r))%nat
  end.
Proof.
  split_and!; [apply sample_is_consistent..|].
  apply (tag_popular_puts_a_most_used_tag_first Sample.db TagQuerySet.objects);
    apply sample_is_consistent.
Defined.

Lemma base_post_queryset_returns_each_post_with_an_author_once_witness :
  pk_unique_post Sample.db ∧ pk_unique_user Sample.db ∧
  Post.row <$>
    PostQuerySet.instances Sample.db (PostQuerySet.base_post_queryset PostQuerySet.objects)
  ≡ₚ filter (λ p, post_author_id p ∈ user_id <$> auth_user Sample.db)
       (PostQuerySet.rows Sample.db PostQuerySet.objects).
Proof.
  split_and!; [apply sample_is_consistent..|].
  apply (base_post_queryset_returns_each_post_with_an_author_once Sample.db
           PostQuerySet.objects); apply sample_is_consistent.
Defined.

Lemma base_post_queryset_prefetches_the_comments_in_order_witness :
  pk_unique_user Sample.db ∧
  Forall (λ post,
      ∃ comments,
        Post.prefetched_comments post = Some comments ∧
        Comment.row <$> comments
        ≡ₚ filter (λ c, comment_post_id c = Post.id post ∧
                        comment_author_id c ∈ user_id <$> auth_user Sample.db)
             (blog_comment Sample.db) ∧
        StronglySorted
          (λ a b, comment_published_at (Comment.row a)
                  ≤ comment_published_at (Comment.row b))
          comments)
    (PostQuerySet.instances Sample.db
       (PostQuerySet.base_post_queryset PostQuerySet.objects)).
Proof.
  split; [apply sample_is_consistent|].
  apply (base_post_queryset_prefetches_the_comments_in_order Sample.db
           PostQuerySet.objects); apply sample_is_consistent.
Defined.

Lemma base_post_queryset_prefetches_the_tags_of_each_post_witness :
  pk_unique_tag Sample.db ∧ unique_post_tags Sample.db ∧
  Forall (λ post,
      ∃ tags,
        Post.prefetched_tags post = Some tags ∧
        Tag.without_annotation <$> tags
        ≡ₚ Tag.from_db <$>
             filter (λ r, mkPostTagRow (Post.id post) (tag_id r)
                          ∈ blog_post_tags Sample.db)
               (blog_tag Sample.db))
    (PostQuerySet.instances Sample.db
       (PostQuerySet.base_post_queryset PostQuerySet.objects)).
Proof.
  split_and!; [apply sample_is_consistent..|].
  apply (base_post_queryset_prefetches_the_tags_of_each_post Sample.db
           PostQuerySet.objects); apply sample_is_consistent.
Defined.

Lemma base_post_queryset_and_popular_count_the_same_likes_witness :
  unique_post_likes Sample.db ∧ pk_unique_post Sample.db ∧ pk_unique_user Sample.db ∧
  Forall (λ p,
      Post.likes_count p = Some (number_of_likes Sample.db (Post.id p)) ∧
      Forall (λ q, Post.id p = Post.id q → Post.likes_count p = Post.likes_count q)
        (PostQuerySet.instances Sample.db (PostQuerySet.popular PostQuerySet.objects)))
    (PostQuerySet.instances Sample.db
       (PostQuerySet.base_post_queryset PostQuerySet.objects)).
Proof.
  split_and!; [apply sample_is_consistent..|].
  apply (base_post_queryset_and_popular_count_the_same_likes Sample.db
           PostQuerySet.objects PostQuerySet.objects); apply sample_is_consistent.
Defined.

Lemma post_delete_keeps_the_database_consistent_witness :
  consistent Sample.db ∧
  ∃ db',
    Post.delete Sample.db (Post.mk Sample.second None None None None None) = inr db' ∧
    consistent db'.
Proof.
  split; [apply sample_is_consistent|].
  destruct (post_delete_keeps_the_database_consistent Sample.db
              (Post.mk Sample.second None None None None None) sample_is_consistent)
    as (db' & Hdelete & Hdb' & _).
  by exists db'.
Defined.

Lemma user_delete_cascades_to_posts_and_comments_witness :
  consistent Sample.db ∧
  ∃ db',
    User.delete Sample.db 1 = inr db' ∧
    consistent db' ∧
    blog_post db' = [] ∧ blog_comment db' = [].
Proof.
  split; [apply sample_is_consistent|].
  destruct (user_delete_cascades_to_posts_and_comments Sample.db 1 sample_is_consistent)
    as (db' & Hdelete & Hdb' & _).
  exists db'. split_and!; [exact Hdelete|exact Hdb'| |].
  - assert (User.delete Sample.db 1 = inr db') as Heq by exact Hdelete.
    vm_compute in Heq. by injection Heq as <-.
  - assert (User.delete Sample.db 1 = inr db') as Heq by exact Hdelete.
    vm_compute in Heq. by injection Heq as <-.
Defined.

Lemma comment_str_names_the_author_and_the_post_witness :
  consistent Sample.db ∧
  Forall (λ c,
      ∃ user post,
        user ∈ auth_user Sample.db ∧ user_id user = comment_author_id c ∧
        post ∈ blog_post Sample.db ∧ post_id post = comment_post_id c ∧
        Str.Comment_str Sample.db (Comment.mk c None)
          = Some (username user +:+ " under " +:+ post_title post) ∧
        Str.Comment_str Sample.db (Comment.mk c (Some user))
          = Some (username user +:+ " under " +:+ post_title post))
    (blog_comment Sample.db).
Proof.
  split; [apply sample_is_consistent|].
  exact (comment_str_names_the_author_and_the_post Sample.db sample_is_consistent).
Defined.

Lemma base_post_queryset_counts_the_posts_of_the_result_witness :
  let second := PostQuerySet.filter_ (λ r, bool_decide (post_id r = 2)) PostQuerySet.objects in
  let posts := PostQuerySet.instances Sample.db (PostQuerySet.base_post_queryset second) in
  pk_unique_post Sample.db ∧ pk_unique_tag Sample.db ∧
  unique_post_tags Sample.db ∧ fk_post_tags_post Sample.db ∧
  Post.prefetched_tags <$> posts
  = [Some [Tag.mk (Some 10) "django" (Some 1%nat); Tag.mk (Some 20) "orm" (Some 1%nat)]] ∧
  number_of_posts Sample.db 10 = 2%nat ∧
  Forall (λ post,
      ∃ tags,
        Post.prefetched_tags post = Some tags ∧
        Forall (λ tag,
            ∃ key n,
              Tag.pk tag = Some key ∧ Tag.posts_count tag = Some n ∧
              (1 ≤ n ≤ number_of_posts Sample.db key)%nat ∧
              (n = number_of_posts Sample.db key
               ↔ Forall (λ pt, pt_tag_id pt = key → pt_post_id pt ∈ Post.id <$> posts)
                   (blog_post_tags Sample.db)))
          tags)
    posts.
Proof.
  cbv zeta.
  split_and!;
    [apply sample_is_consistent|apply sample_is_consistent
    |apply sample_is_consistent|apply sample_is_consistent
    |by vm_compute|by vm_compute|].
  apply (base_post_queryset_counts_the_posts_of_the_result Sample.db);
    apply sample_is_consistent.
Defined.
